(** * Round closure of the pooled-deposit lottery

    A shallow embedding of [close_round_fixed_address.py]: the draw
    ([get_winner_index]), the settlement amounts, the successor round and the
    closure procedure [close_round] over an explicit database state, followed
    by the properties of the specification that concern them.

    Conventions.
    - Python [int] is [Z]; [%] is [Z.modulo] (both take the sign of the
      divisor).
    - Python [str] is [string], read as a sequence of code points 0..255.
    - Python [float] is the kernel's binary64 [float].
    - A call either returns a value or raises: [result]. *)

From Stdlib Require Import ZArith List String Ascii Bool Lia Floats.
From Stdlib Require Import Permutation Sorted.
Import ListNotations.

Set Warnings "-inexact-float".

Local Open Scope string_scope.
Local Open Scope Z_scope.

(** ** Python values *)

(** The four [session.commit()] calls an invocation of [close_round] can
    reach, by the line they stand on. *)
Inductive commit_site : Type :=
| CommitIndices      (* line 113 *)
| CommitClosure      (* line 129 *)
| CommitSettlement   (* line 70 *)
| CommitNextRound.   (* line 83 *)

(** The four [datetime.datetime.utcnow()] calls. *)
Inductive clock_site : Type :=
| ClockClosedAt      (* line 127 *)
| ClockPrizeTx       (* line 57 *)
| ClockAdminTx       (* line 66 *)
| ClockOpenedAt.     (* line 80 *)

(** Exceptions that can escape the functions of the module.
    [CommitError c] stands for the exception SQLAlchemy raises when the
    commit at [c] fails. *)
Inductive py_exn : Type :=
| ValueError
| TypeError
| IndexError
| CommitError (c : commit_site).

Inductive result (A : Type) : Type :=
| Return (a : A)
| Raise (e : py_exn).
Arguments Return {A} a.
Arguments Raise {A} e.

(** [not s] for a string. *)
Definition str_falsy (s : string) : bool :=
  match s with
  | EmptyString => true
  | String _ _ => false
  end.

Definition code (c : ascii) : Z := Z.of_N (N_of_ascii c).

(** ** [int(s, 16)]

    CPython's [PyLong_FromString] at base 16: leading white space, one
    optional sign, an optional [0x]/[0X] prefix (one underscore may follow
    it), then hexadecimal digits with single underscores between digits,
    trailing white space, end of string. *)
Module PyInt.

(** White space skipped by [int]: [Py_ISSPACE] on ASCII, and the white
    space of the Latin-1 range (NEL, NBSP) that is mapped to a blank
    beforehand. *)
Definition is_space (c : ascii) : bool :=
  let n := code c in
  ((9 <=? n) && (n <=? 13)) || (n =? 32) || (n =? 133) || (n =? 160).

(** [_PyLong_DigitValue], kept to the digits below 16. *)
Definition digit_value (c : ascii) : option Z :=
  let n := code c in
  if (48 <=? n) && (n <=? 57) then Some (n - 48)
  else if (97 <=? n) && (n <=? 102) then Some (n - 87)
  else if (65 <=? n) && (n <=? 70) then Some (n - 55)
  else None.

Definition is_underscore (c : ascii) : bool := code c =? 95.

Fixpoint skip_spaces (s : string) : string :=
  match s with
  | String c s' => if is_space c then skip_spaces s' else s
  | EmptyString => s
  end.

(** [long_from_binary_base]: consume digits and underscores.  [prev_us]
    tells that the previous character was an underscore, [seen] that a
    character has been consumed.  [None] is the syntax error of a doubled
    or trailing underscore. *)
Fixpoint scan_digits (prev_us seen : bool) (acc : Z) (s : string)
  : option (Z * bool * string) :=
  match s with
  | String c s' =>
      if is_underscore c then
        if prev_us then None else scan_digits true true acc s'
      else
        match digit_value c with
        | Some d => scan_digits false true (16 * acc + d) s'
        | None => if prev_us then None else Some (acc, seen, s)
        end
  | EmptyString => if prev_us then None else Some (acc, seen, s)
  end.

Definition strip_sign (s : string) : bool * string :=
  match s with
  | String c s' =>
      if code c =? 43 then (false, s')
      else if code c =? 45 then (true, s')
      else (false, s)
  | EmptyString => (false, s)
  end.

Definition strip_prefix (s : string) : string :=
  match s with
  | String c0 (String c1 s') =>
      if (code c0 =? 48) && ((code c1 =? 120) || (code c1 =? 88)) then
        match s' with
        | String c2 s'' => if is_underscore c2 then s'' else s'
        | EmptyString => s'
        end
      else s
  | _ => s
  end.

Definition starts_with_underscore (s : string) : bool :=
  match s with
  | String c _ => is_underscore c
  | EmptyString => false
  end.

(** [int(s, 16)]: [None] stands for [ValueError]. *)
Definition int16 (s : string) : option Z :=
  let (neg, s1) := strip_sign (skip_spaces s) in
  let s2 := strip_prefix s1 in
  if starts_with_underscore s2 then None
  else
    match scan_digits false false 0 s2 with
    | Some (v, true, rest) =>
        if str_falsy (skip_spaces rest) then Some (if neg then - v else v)
        else None
    | _ => None
    end.

(** A string of hexadecimal digits only, and its positional value. *)
Fixpoint all_hex (s : string) : bool :=
  match s with
  | String c s' =>
      match digit_value c with Some _ => all_hex s' | None => false end
  | EmptyString => true
  end.

Fixpoint hex_value (s : string) : Z :=
  match s with
  | String c s' =>
      match digit_value c with
      | Some d => d * 16 ^ Z.of_nat (String.length s') + hex_value s'
      | None => 0
      end
  | EmptyString => 0
  end.

End PyInt.

(** ** The draw *)

(** [get_winner_index(block_hash, num_participants)], lines 34-41. *)
Definition get_winner_index (block_hash : string) (num_participants : Z)
  : result (option Z) :=
  if str_falsy block_hash || (num_participants =? 0) then Return None
  else
    match PyInt.int16 block_hash with
    | Some h => Return (Some (h mod num_participants))
    | None => Raise ValueError
    end.

(** ** The randomness beacon *)

(** What [requests.get] can do: answer with a status and a body, or raise. *)
Inductive http_result : Type :=
| HttpResponse (status_code : Z) (text : string)
| HttpException.

(** [str.strip()]: white space as [str.isspace] has it on code points below
    256. *)
Module PyStr.

Definition isspace (c : ascii) : bool :=
  let n := code c in
  ((9 <=? n) && (n <=? 13)) || ((28 <=? n) && (n <=? 32))
  || (n =? 133) || (n =? 160).

Fixpoint lstrip (s : string) : string :=
  match s with
  | String c s' => if isspace c then lstrip s' else s
  | EmptyString => s
  end.

Fixpoint rstrip (s : string) : string :=
  match s with
  | String c s' =>
      let r := rstrip s' in
      if str_falsy r && isspace c then EmptyString else String c r
  | EmptyString => s
  end.

Definition strip (s : string) : string := rstrip (lstrip s).

End PyStr.

(** [get_latest_block_hash()], lines 19-32, as a function of what the HTTP
    request does.  [None] is Python's [None]. *)
Definition get_latest_block_hash (resp : http_result) : option string :=
  match resp with
  | HttpResponse status_code text =>
      if status_code =? 200 then Some (PyStr.strip text) else None
  | HttpException => None
  end.

(** ** Settlement amounts *)

(** [round(x, ndigits)] on a float, for [ndigits >= 0], as CPython's
    [double_round] computes it: the decimal expansion of [x] correctly
    rounded (ties to even) to [ndigits] places, converted back to the
    nearest float. *)
Module PyFloat.

(** Nearest integer to [num / den], ties to even ([0 <= num], [0 < den]). *)
Definition div_half_even (num den : Z) : Z :=
  let q := num / den in
  let r := num mod den in
  match 2 * r ?= den with
  | Lt => q
  | Gt => q + 1
  | Eq => if Z.even q then q else q + 1
  end.

(** Nearest integer to [m * 2^e * 10^ndigits]. *)
Definition scaled (ndigits : nat) (m : positive) (e : Z) : Z :=
  let p := 10 ^ Z.of_nat ndigits in
  if 0 <=? e then Z.pos m * 2 ^ e * p
  else div_half_even (Z.pos m * p) (2 ^ (- e)).

(** The number of [10^-ndigits] units in [|x|] after rounding; [None] for
    an infinity or a NaN. *)
Definition units (x : float) (ndigits : nat) : option Z :=
  match Prim2SF x with
  | S754_zero _ => Some 0
  | S754_finite _ m e => Some (scaled ndigits m e)
  | _ => None
  end.

Definition round (x : float) (ndigits : nat) : float :=
  match Prim2SF x with
  | S754_finite s m e =>
      match scaled ndigits m e with
      | Z.pos q =>
          SF2Prim (SFdiv prec emax
                     (S754_finite s q 0)
                     (S754_finite false (Z.to_pos (10 ^ Z.of_nat ndigits)) 0))
      | _ => SF2Prim (S754_zero s)
      end
  | _ => x
  end.

End PyFloat.

Definition FIXED_DEPOSIT_ADDRESS : string := "bc1qsingleaddress1234567890".
Definition ADMIN_FEE_ADDRESS : string := "bc1qadminfeeaddress1234567890".

Definition PRIZE_RATE : float := 0.99%float.
Definition ADMIN_RATE : float := 0.01%float.
Definition PARTICIPANT_BTC_AMOUNT : float := 0.1%float.
Definition TOTAL_AMOUNT : float := (PARTICIPANT_BTC_AMOUNT * 10)%float.

(** Lines 47-48. *)
Definition prize_amount : float := PyFloat.round (TOTAL_AMOUNT * PRIZE_RATE)%float 8.
Definition admin_fee : float := PyFloat.round (TOTAL_AMOUNT * ADMIN_RATE)%float 8.

(** ** The ledger *)

(** Modelled from the spec: the columns of [models.Round] (section 3 of the
    specification); [models.py] is not among the sources.  Times are
    integers. *)
Module Round.
Record t : Type := mk {
  id : Z;
  deposit_address : string;
  status : string;
  opened_at : option Z;
  closed_at : option Z;
  winner : option string
}.
End Round.

(** Modelled from the spec: the columns of [models.Participant]. *)
Module Participant.
Record t : Type := mk {
  id : Z;
  round_id : Z;
  btc_address : string;
  created_at : Z;
  round_index : option Z
}.

(** [p.round_index = idx] *)
Definition set_round_index (idx : Z) (p : t) : t :=
  mk (id p) (round_id p) (btc_address p) (created_at p) (Some idx).
End Participant.

(** Modelled from the spec: the columns of [models.Transaction]. *)
Module Transaction.
Record t : Type := mk {
  id : Z;
  txid : option string;
  type : string;
  status : string;
  amount : float;
  address : string;
  timestamp : Z
}.
End Transaction.

(** The committed content of the database: one list of rows per table, in
    insertion order.  [id] is the primary key of each table. *)
Record Db : Type := mkDb {
  rounds : list Round.t;
  participants : list Participant.t;
  transactions : list Transaction.t
}.

(** The key the store gives to a row added without one: one more than the
    largest key in the table. *)
Definition fresh_id (ids : list Z) : Z := 1 + fold_right Z.max 0 ids.

(** [ORDER BY key]: a stable insertion sort, so rows with equal keys keep
    the order of the table.  SQL leaves the order of rows with equal keys
    to the engine; [order_by] is the answer of an engine that scans the
    table in order, and [query_answer] below is every answer an engine may
    give.  Where a statement depends on the order among equal keys it
    assumes the keys distinct ([distinct_arrivals]). *)
Fixpoint insert_by {A : Type} (key : A -> Z) (x : A) (l : list A) : list A :=
  match l with
  | [] => [x]
  | y :: l' => if key x <=? key y then x :: l else y :: insert_by key x l'
  end.

Definition order_by {A : Type} (key : A -> Z) (l : list A) : list A :=
  fold_right (insert_by key) [] l.

(** The order [order_by] produces: keys never decrease. *)
Definition key_le {A : Type} (key : A -> Z) (a b : A) : Prop := key a <= key b.

(** [session.query(Round).filter_by(id=round_id, status='open').first()] *)
Definition find_open_round (round_id : Z) (db : Db) : option Round.t :=
  find (fun r => (Round.id r =? round_id) && (Round.status r =? "open")%string)
       (rounds db).

(** [session.query(Participant).filter_by(round_id=round_id)
      .order_by(Participant.created_at).all()] *)
Definition load_participants (round_id : Z) (db : Db) : list Participant.t :=
  order_by Participant.created_at
    (filter (fun p => Participant.round_id p =? round_id) (participants db)).

(** The UPDATE the unit of work issues for one modified participant: by
    primary key. *)
Definition update_round_index (pid idx : Z) (tbl : list Participant.t)
  : list Participant.t :=
  map (fun p => if Participant.id p =? pid
                then Participant.set_round_index idx p else p) tbl.

(** [for idx, p in enumerate(ps, start): p.round_index = idx] *)
Fixpoint assign_from (start : Z) (ps tbl : list Participant.t)
  : list Participant.t :=
  match ps with
  | [] => tbl
  | p :: ps' =>
      assign_from (start + 1) ps'
        (update_round_index (Participant.id p) start tbl)
  end.

(** The position of a primary key in a list of rows, and the row that the
    loop above leaves in place of [r] when the keys of [ps] are distinct:
    the row numbered by the position of its key, or [r] itself. *)
Fixpoint position (pid : Z) (ps : list Participant.t) : option nat :=
  match ps with
  | [] => None
  | p :: ps' =>
      if Participant.id p =? pid then Some O
      else option_map S (position pid ps')
  end.

Definition indexed_row (start : Z) (ps : list Participant.t)
  (r : Participant.t) : Participant.t :=
  match position (Participant.id r) ps with
  | Some i => Participant.set_round_index (start + Z.of_nat i) r
  | None => r
  end.

(** Lines 111-112, with [participants[:10]]. *)
Definition assign_round_indices (ps : list Participant.t) (db : Db) : Db :=
  mkDb (rounds db) (assign_from 1 (firstn 10 ps) (participants db))
       (transactions db).

(** Lines 126-128: the UPDATE of the round row, by primary key. *)
Definition mark_closed (round_id now : Z) (winner_address : string) (db : Db)
  : Db :=
  mkDb (map (fun r => if Round.id r =? round_id
                      then Round.mk (Round.id r) (Round.deposit_address r)
                             "closed" (Round.opened_at r) (Some now)
                             (Some winner_address)
                      else r) (rounds db))
       (participants db) (transactions db).

(** [l[i]] on a Python list: negative indices count from the end;
    [None] stands for [IndexError]. *)
Definition py_getitem {A : Type} (l : list A) (i : Z) : option A :=
  let n := Z.of_nat (List.length l) in
  if 0 <=? i then nth_error l (Z.to_nat i)
  else if 0 <=? n + i then nth_error l (Z.to_nat (n + i))
  else None.

(** ** One invocation *)

(** What the outside world does during one invocation: the answer to the
    HTTP request, which commits fail, and what the clock reads. *)
Record World : Type := mkWorld {
  http : http_result;
  commit_fails : commit_site -> bool;
  utcnow : clock_site -> Z
}.

(** How [close_round] ends.  It returns [None] on every path; the paths
    differ by what was printed and written.
    - [NoOpenRound]: lines 99-102 (RoundNotFound / RoundNotOpen);
    - [TooFewParticipants]: lines 105-108 (InsufficientParticipants);
    - [NoBlockHash]: lines 117-120 (UnavailableError);
    - [Closed]: line 145 reached;
    - [Raised]: an exception left the function. *)
Inductive outcome : Type :=
| NoOpenRound
| TooFewParticipants (n : nat)
| NoBlockHash
| Closed (winner_address : string) (next_round_id : Z)
| Raised (e : py_exn).

(** A computation over the database that yields a value or ends the
    invocation. *)
Inductive flow (A : Type) : Type :=
| Next (a : A)
| Stop (o : outcome).
Arguments Next {A} a.
Arguments Stop {A} o.

Definition Session (A : Type) : Type := Db -> flow A * Db.

Definition ret {A : Type} (a : A) : Session A := fun db => (Next a, db).

Definition bind {A B : Type} (c : Session A) (k : A -> Session B) : Session B :=
  fun db =>
    match c db with
    | (Next a, db') => k a db'
    | (Stop o, db') => (Stop o, db')
    end.

Definition stop {A : Type} (o : outcome) : Session A := fun db => (Stop o, db).

(** A read of the database.  Reads are taken to succeed: the engine is
    reachable and the tables exist.  An exception of the engine on a read
    (or on [create_engine], or on the reload of an attribute after a
    commit) is outside this model. *)
Definition query {A : Type} (q : Db -> A) : Session A := fun db => (Next (q db), db).

(** Pending writes followed by [session.commit()]: the writes reach the
    database when the commit succeeds; when it fails the exception leaves
    the function and the database keeps its committed content. *)
Definition commit_writes (w : World) (c : commit_site) (writes : Db -> Db)
  : Session unit :=
  fun db =>
    if commit_fails w c then (Stop (Raised (CommitError c)), db)
    else (Next tt, writes db).

Declare Scope session_scope.
Delimit Scope session_scope with session.
Notation "x <- c ;; k" := (bind c (fun x => k))
  (at level 61, c at next level, right associativity) : session_scope.
Notation "c ;; k" := (bind c (fun _ => k))
  (at level 61, right associativity) : session_scope.
Local Open Scope session_scope.

(** Lines 51-67: the two rows of the settlement. *)
Definition settlement_rows (w : World) (winner_address : string) (db : Db)
  : list Transaction.t :=
  let k := fresh_id (map Transaction.id (transactions db)) in
  [ Transaction.mk k None "payout" "pending" prize_amount winner_address
      (utcnow w ClockPrizeTx);
    Transaction.mk (k + 1) None "fee" "pending" admin_fee ADMIN_FEE_ADDRESS
      (utcnow w ClockAdminTx) ].

(** [record_payout_transactions(session, winner_address)], lines 43-71. *)
Definition record_payout_transactions (w : World) (winner_address : string)
  : Session unit :=
  commit_writes w CommitSettlement
    (fun db => mkDb (rounds db) (participants db)
                 (transactions db ++ settlement_rows w winner_address db)).

(** Lines 77-81. *)
Definition new_round_row (w : World) (db : Db) : Round.t :=
  Round.mk (fresh_id (map Round.id (rounds db))) FIXED_DEPOSIT_ADDRESS "open"
    (Some (utcnow w ClockOpenedAt)) None None.

(** [create_next_round(session)], lines 73-85: returns the new round's id. *)
Definition create_next_round (w : World) : Session Z :=
  new_id <- query (fun db => Round.id (new_round_row w db)) ;;
  commit_writes w CommitNextRound
    (fun db => mkDb (rounds db ++ [new_round_row w db]) (participants db)
                 (transactions db)) ;;
  ret new_id.

(** The steps of [close_round], each up to its next access to the
    database or to the network. *)

(** Lines 98-102. *)
Definition open_check (round_id : Z) : Session Round.t :=
  rnd <- query (find_open_round round_id) ;;
  match rnd with
  | None => stop NoOpenRound
  | Some r => ret r
  end.

(** Lines 104-108. *)
Definition load_step (round_id : Z) : Session (list Participant.t) :=
  ps <- query (load_participants round_id) ;;
  if (List.length ps <? 10)%nat then stop (TooFewParticipants (List.length ps))
  else ret ps.

(** Lines 111-113. *)
Definition index_step (w : World) (ps : list Participant.t) : Session unit :=
  commit_writes w CommitIndices (assign_round_indices ps).

(** Lines 116-120. *)
Definition fetch_step (w : World) : Session string :=
  match get_latest_block_hash (http w) with
  | None => stop NoBlockHash
  | Some block_hash =>
      if str_falsy block_hash then stop NoBlockHash else ret block_hash
  end.

(** Lines 121-129: returns [winner_address]. *)
Definition draw_step (w : World) (round_id : Z) (ps : list Participant.t)
  (block_hash : string) : Session string :=
  match get_winner_index block_hash 10 with
  | Raise e => stop (Raised e)
  | Return None => stop (Raised TypeError)
  | Return (Some winner_idx) =>
      match py_getitem ps winner_idx with
      | None => stop (Raised IndexError)
      | Some winner_participant =>
          let winner_address := Participant.btc_address winner_participant in
          commit_writes w CommitClosure
            (mark_closed round_id (utcnow w ClockClosedAt) winner_address) ;;
          ret winner_address
      end
  end.

(** [close_round(round_id)], lines 87-145, as a session. *)
Definition close_round_session (w : World) (round_id : Z) : Session outcome :=
  open_check round_id ;;
  ps <- load_step round_id ;;
  index_step w ps ;;
  block_hash <- fetch_step w ;;
  winner_address <- draw_step w round_id ps block_hash ;;
  record_payout_transactions w winner_address ;;
  next_id <- create_next_round w ;;
  ret (Closed winner_address next_id).

(** [close_round]: how the invocation ends and the database it leaves. *)
Definition close_round (w : World) (round_id : Z) (db : Db) : outcome * Db :=
  match close_round_session w round_id db with
  | (Next o, db') => (o, db')
  | (Stop o, db') => (o, db')
  end.

(** The number of participants registered for a round. *)
Definition participant_count (round_id : Z) (db : Db) : nat :=
  List.length (filter (fun p => Participant.round_id p =? round_id)
                 (participants db)).

(** ** Overlapping invocations

    [close_round] holds no lock and issues no conditional update: between
    two of its accesses to the database another invocation may run.  An
    attempt is therefore a small machine whose steps are the steps above;
    the program counter carries the local variables that are live. *)
Inductive pc : Type :=
| AtOpenCheck
| AtLoad
| AtIndex (ps : list Participant.t)
| AtFetch (ps : list Participant.t)
| AtDraw (ps : list Participant.t) (block_hash : string)
| AtSettle (winner_address : string)
| AtSuccessor (winner_address : string)
| Halted (o : outcome).

Definition advance {A : Type} (k : A -> pc) (r : flow A * Db) : pc * Db :=
  match r with
  | (Next a, db) => (k a, db)
  | (Stop o, db) => (Halted o, db)
  end.

Definition attempt_step (w : World) (round_id : Z) (p : pc) (db : Db)
  : pc * Db :=
  match p with
  | AtOpenCheck => advance (fun _ => AtLoad) (open_check round_id db)
  | AtLoad => advance AtIndex (load_step round_id db)
  | AtIndex ps => advance (fun _ => AtFetch ps) (index_step w ps db)
  | AtFetch ps => advance (AtDraw ps) (fetch_step w db)
  | AtDraw ps block_hash =>
      advance AtSettle (draw_step w round_id ps block_hash db)
  | AtSettle winner_address =>
      advance (fun _ => AtSuccessor winner_address)
        (record_payout_transactions w winner_address db)
  | AtSuccessor winner_address =>
      advance (fun n => Halted (Closed winner_address n))
        (create_next_round w db)
  | Halted o => (Halted o, db)
  end.

Fixpoint run_attempt (fuel : nat) (w : World) (round_id : Z) (p : pc) (db : Db)
  : pc * Db :=
  match fuel with
  | O => (p, db)
  | S fuel' =>
      let (p', db') := attempt_step w round_id p db in
      run_attempt fuel' w round_id p' db'
  end.

(** Two attempts on one database, stepped in the order a schedule gives. *)
Inductive who : Type := FirstAttempt | SecondAttempt.

Record Race : Type := mkRace {
  first_pc : pc;
  second_pc : pc;
  store : Db
}.

Definition race_start (db : Db) : Race := mkRace AtOpenCheck AtOpenCheck db.

Definition race_step (w1 w2 : World) (round_id : Z) (s : Race) (t : who)
  : Race :=
  match t with
  | FirstAttempt =>
      let (p, db) := attempt_step w1 round_id (first_pc s) (store s) in
      mkRace p (second_pc s) db
  | SecondAttempt =>
      let (p, db) := attempt_step w2 round_id (second_pc s) (store s) in
      mkRace (first_pc s) p db
  end.

Definition race (w1 w2 : World) (round_id : Z) (schedule : list who)
  (s : Race) : Race :=
  fold_left (race_step w1 w2 round_id) schedule s.

(** The attempt has committed its closure (line 129 is behind it) or has
    ended. *)
Definition past_commit (p : pc) : bool :=
  match p with
  | AtSettle _ | AtSuccessor _ | Halted _ => true
  | _ => false
  end.

Definition is_first (t : who) : bool :=
  match t with FirstAttempt => true | SecondAttempt => false end.

(** The closure of a round with winner [a] is in the database: the round
    exists and every row of its id is closed with that winner. *)
Definition closure_recorded (round_id : Z) (a : string) (db : Db) : Prop :=
  In round_id (map Round.id (rounds db))
  /\ forall r, In r (rounds db) -> Round.id r = round_id ->
               Round.status r = "closed" /\ Round.winner r = Some a.

(** ** What the participants query may return *)

(** An answer to the query of line 104: the rows of the round, each once,
    with [created_at] never decreasing.  Rows with the same [created_at]
    may come in any order. *)
Definition query_answer (round_id : Z) (db : Db) (qs : list Participant.t)
  : Prop :=
  StronglySorted (key_le Participant.created_at) qs
  /\ Permutation qs
       (filter (fun p => Participant.round_id p =? round_id)
          (participants db)).

(** No two participants of the round arrived at the same time. *)
Definition distinct_arrivals (round_id : Z) (db : Db) : Prop :=
  NoDup (map Participant.created_at
           (filter (fun p => Participant.round_id p =? round_id)
              (participants db))).

(** ** What an invocation may change *)

(** The columns of a participant that identify the registration. *)
Definition participant_key (p : Participant.t) : Z * Z * string * Z :=
  (Participant.id p, Participant.round_id p, Participant.btc_address p,
   Participant.created_at p).

(** [db'] holds what [db] held: the transactions of [db] come first and
    unchanged, the round keys of [db] come first in the same order, the
    registrations are the same, and the rounds other than [round_id] are
    still there as they were. *)
Definition ledger_extends (round_id : Z) (db db' : Db) : Prop :=
  (exists ext, transactions db' = (transactions db ++ ext)%list)
  /\ (exists ext,
        map Round.id (rounds db') = (map Round.id (rounds db) ++ ext)%list)
  /\ map participant_key (participants db')
     = map participant_key (participants db)
  /\ (forall r, In r (rounds db) -> Round.id r <> round_id ->
                In r (rounds db')).

(** Primary keys are distinct in each table. *)
Definition keys_unique (db : Db) : Prop :=
  NoDup (map Round.id (rounds db))
  /\ NoDup (map Participant.id (participants db))
  /\ NoDup (map Transaction.id (transactions db)).

(** ** Sample data *)
Module Sample.

(** Participant [k] of round 1; later keys arrived earlier, so the order
    of arrival is the reverse of the order of the table. *)
Definition participant (k : nat) : Participant.t :=
  Participant.mk (Z.of_nat k) 1
    (String (ascii_of_nat (96 + k)) EmptyString)
    (100 - Z.of_nat k) None.

Definition open_round : Round.t :=
  Round.mk 1 FIXED_DEPOSIT_ADDRESS "open" (Some 0) None None.

Definition db_with (n : nat) : Db :=
  mkDb [open_round] (map participant (seq 1 n)) [].

Definition clock (c : clock_site) : Z :=
  match c with
  | ClockClosedAt => 200
  | ClockPrizeTx => 201
  | ClockAdminTx => 202
  | ClockOpenedAt => 203
  end.

(** A world where the beacon answers [body] and every commit succeeds. *)
Definition world (body : string) : World :=
  mkWorld (HttpResponse 200 body) (fun _ => false) clock.

(** A world where the beacon is down. *)
Definition world_down : World :=
  mkWorld (HttpResponse 503 "") (fun _ => false) clock.

(** A world where the settlement cannot be committed. *)
Definition world_settle_fails (body : string) : World :=
  mkWorld (HttpResponse 200 body)
    (fun c => match c with CommitSettlement => true | _ => false end) clock.

(** Ten participants of round 1 of whom the first two in the table
    arrived at the same time, before all the others. *)
Definition tied_participant (k : nat) : Participant.t :=
  Participant.mk (Z.of_nat k) 1
    (String (ascii_of_nat (96 + k)) EmptyString)
    (if (k <=? 2)%nat then 50 else 100 - Z.of_nat k) None.

Definition tied_db : Db :=
  mkDb [open_round] (map tied_participant (seq 1 10)) [].

(** The answer that takes the tied rows in table order, and the database
    numbered from it. *)
Definition tied_first : list Participant.t := load_participants 1 tied_db.

Definition tied_numbered : Db := assign_round_indices tied_first tied_db.

(** An answer on the numbered database that takes the tied rows in the
    other order. *)
Definition tied_second : list Participant.t :=
  match load_participants 1 tied_numbered with
  | a :: b :: rest => b :: a :: rest
  | l => l
  end.

(** Both attempts pass the open check, then each runs to its end. *)
Definition overlap : list who :=
  [FirstAttempt; SecondAttempt]
  ++ repeat FirstAttempt 6 ++ repeat SecondAttempt 6.

Definition overlap_end : Race :=
  race (world "1a") (world "1b") 1 overlap (race_start (db_with 10)).

End Sample.

(** * Properties *)

(** ** Parsing *)

Section Parsing.
Import PyInt.

Lemma digit_value_char (c : ascii) (d : Z) :
  digit_value c = Some d ->
  0 <= d < 16 /\ is_space c = false /\ is_underscore c = false
  /\ code c <> 43 /\ code c <> 45 /\ code c <> 120 /\ code c <> 88.
Proof.
  unfold digit_value, is_space, is_underscore.
  set (n := code c).
  repeat match goal with
    | |- context [?a <=? ?b] => destruct (Z.leb_spec a b); try lia
    | |- context [?a =? ?b] => destruct (Z.eqb_spec a b); try lia
    end;
    cbn; intros E; try discriminate; injection E as <-;
    repeat split; lia || reflexivity.
Qed.

Lemma hex_value_nonneg (s : string) : 0 <= hex_value s.
Proof.
  induction s as [|c s IH]; [cbn; lia|cbn [hex_value]].
  destruct (digit_value c) as [d|] eqn:E; [|lia].
  apply digit_value_char in E.
  assert (0 <= 16 ^ Z.of_nat (String.length s)) by (apply Z.pow_nonneg; lia).
  nia.
Qed.

Lemma scan_digits_all_hex (s : string) :
  forall seen acc,
    all_hex s = true ->
    scan_digits false seen acc s
    = Some (acc * 16 ^ Z.of_nat (String.length s) + hex_value s,
            seen || negb (str_falsy s), EmptyString).
Proof.
  induction s as [|c s IH]; intros seen acc Hs.
  - cbn. rewrite orb_false_r. f_equal. f_equal. f_equal. lia.
  - cbn [all_hex] in Hs. cbn [scan_digits hex_value String.length str_falsy].
    destruct (digit_value c) as [d|] eqn:E; [|discriminate].
    destruct (digit_value_char c d E) as (_ & _ & -> & _).
    rewrite IH by assumption.
    rewrite orb_true_r, Nat2Z.inj_succ, Z.pow_succ_r by lia.
    cbn [negb orb]. f_equal. f_equal. f_equal. ring.
Qed.

(** A non-empty string of hexadecimal digits parses to its positional
    value. *)
Lemma int16_all_hex (s : string) :
  all_hex s = true -> s <> EmptyString -> int16 s = Some (hex_value s).
Proof.
  intros Hs Hne. destruct s as [|c s]; [congruence|].
  pose proof Hs as Hs'. cbn [all_hex] in Hs'.
  destruct (digit_value c) as [d|] eqn:E; [|discriminate].
  destruct (digit_value_char c d E) as (_ & Hsp & Hus & Hp & Hm & Hx & HX).
  unfold int16. cbn [skip_spaces]. rewrite Hsp.
  unfold strip_sign.
  destruct (Z.eqb_spec (code c) 43) as [|_]; [contradiction|].
  destruct (Z.eqb_spec (code c) 45) as [|_]; [contradiction|].
  assert (Hpre : strip_prefix (String c s) = String c s).
  { cbn [strip_prefix]. destruct s as [|c1 s1]; [reflexivity|].
    cbn [all_hex] in Hs'.
    destruct (digit_value c1) as [d1|] eqn:E1; [|discriminate].
    destruct (digit_value_char c1 d1 E1) as (_ & _ & _ & _ & _ & Hx1 & HX1).
    destruct (Z.eqb_spec (code c1) 120) as [|_]; [contradiction|].
    destruct (Z.eqb_spec (code c1) 88) as [|_]; [contradiction|].
    now rewrite andb_false_r. }
  rewrite Hpre. cbn [starts_with_underscore]. rewrite Hus.
  rewrite scan_digits_all_hex by assumption.
  cbn [str_falsy negb orb skip_spaces]. f_equal; lia.
Qed.

End Parsing.

(** ** The draw *)

(** The worked example of the specification: the value 26 (hexadecimal
    [1a]) with 10 participants draws index 6, the seventh participant in
    order of arrival. *)
Example draw_of_26 :
  get_winner_index "1a" 10 = Return (Some 6)
  /\ py_getitem (load_participants 1 (Sample.db_with 10)) 6
     = Some (Sample.participant 4)
  /\ fst (close_round (Sample.world "1a") 1 (Sample.db_with 10))
     = Closed "d" 2.
Proof. repeat split. Qed.

(** C1.  For every participant count [n > 0] and every non-empty string [h]
    that [int(h, 16)] parses to [H], [get_winner_index h n] returns
    [H mod n], which lies in [0, n); [H] is the positional base-16 value of
    [h] when [h] consists of hexadecimal digits; and the result depends on
    [(h, n)] only: a second call with the same arguments returns the same
    index. *)
Theorem get_winner_index_mod (h : string) (n H : Z) :
  0 < n ->
  str_falsy h = false ->
  PyInt.int16 h = Some H ->
  get_winner_index h n = Return (Some (H mod n))
  /\ 0 <= H mod n < n
  /\ (PyInt.all_hex h = true -> H = PyInt.hex_value h)
  /\ (forall h' n', h' = h -> n' = n ->
      get_winner_index h' n' = get_winner_index h n).
Proof.
  intros Hn Hh HH. repeat split.
  - unfold get_winner_index. rewrite Hh, HH.
    destruct (Z.eqb_spec n 0); [lia | reflexivity].
  - apply Z.mod_pos_bound; assumption.
  - apply Z.mod_pos_bound; assumption.
  - intros Hx. destruct h as [|c s]; [discriminate|].
    rewrite int16_all_hex in HH by (assumption || discriminate).
    congruence.
  - intros h' n' -> ->. reflexivity.
Qed.

Lemma get_winner_index_mod_witness :
  get_winner_index "1a" 10 = Return (Some (26 mod 10))
  /\ 0 <= 26 mod 10 < 10.
Proof.
  pose proof (get_winner_index_mod "1a" 10 26
                ltac:(lia) ltac:(reflexivity) ltac:(reflexivity))
    as (H1 & H2 & _).
  split; assumption.
Defined.

(** C6, as the code has it.  [get_winner_index] returns [None] when the
    string is empty or the participant count is 0, the two cases alike;
    for a non-empty string that [int(., 16)] rejects and a count other than
    0 it raises [ValueError]; in none of these cases does it return an
    index. *)
Theorem get_winner_index_failures (h : string) (n : Z) :
  (str_falsy h = true \/ n = 0 -> get_winner_index h n = Return None)
  /\ (str_falsy h = false -> n <> 0 -> PyInt.int16 h = None ->
      get_winner_index h n = Raise ValueError)
  /\ (str_falsy h = true \/ n = 0 \/ PyInt.int16 h = None ->
      forall i, get_winner_index h n <> Return (Some i)).
Proof.
  unfold get_winner_index. repeat split.
  - intros [-> | ->]; [reflexivity|].
    rewrite Z.eqb_refl, orb_true_r. reflexivity.
  - intros -> Hn ->. destruct (Z.eqb_spec n 0); [contradiction | reflexivity].
  - intros [-> | [-> | ->]] i.
    + discriminate.
    + rewrite Z.eqb_refl, orb_true_r. discriminate.
    + destruct (str_falsy h || (n =? 0)); discriminate.
Qed.

Lemma get_winner_index_failures_witness :
  get_winner_index "" 10 = Return None
  /\ get_winner_index "zz" 10 = Raise ValueError.
Proof.
  split.
  - apply (proj1 (get_winner_index_failures "" 10)). left. reflexivity.
  - apply (proj1 (proj2 (get_winner_index_failures "zz" 10)));
      [reflexivity | lia | reflexivity].
Defined.

(** C6, as the specification words it, fails: on an unparseable string the
    call returns no value at all (it raises), and the failure on an empty
    string is the same value as the failure on a zero count. *)
Lemma get_winner_index_unparseable_raises :
  PyInt.int16 "zz" = None
  /\ get_winner_index "zz" 10 = Raise ValueError
  /\ ~ (exists v : option Z, get_winner_index "zz" 10 = Return v)
  /\ get_winner_index "" 10 = get_winner_index "1a" 0.
Proof.
  repeat split; try reflexivity.
  intros [v Hv]. discriminate Hv.
Qed.

(** ** Ordered queries *)

Section OrderBy.
Context {A : Type} (key : A -> Z).

Lemma insert_by_perm (x : A) (l : list A) :
  Permutation (insert_by key x l) (x :: l).
Proof.
  induction l as [|y l IH]; cbn [insert_by]; [reflexivity|].
  destruct (key x <=? key y); [reflexivity|].
  rewrite IH. apply perm_swap.
Qed.

Lemma order_by_perm (l : list A) : Permutation (order_by key l) l.
Proof.
  induction l as [|x l IH]; cbn; [constructor|].
  fold (order_by key l). rewrite insert_by_perm. now constructor.
Qed.

Lemma order_by_length (l : list A) :
  List.length (order_by key l) = List.length l.
Proof. apply Permutation_length, order_by_perm. Qed.

Lemma insert_by_sorted (x : A) (l : list A) :
  StronglySorted (key_le key) l -> StronglySorted (key_le key) (insert_by key x l).
Proof.
  induction 1 as [|y l Hs IH Hy]; cbn [insert_by].
  - repeat constructor.
  - destruct (Z.leb_spec (key x) (key y)) as [Hxy|Hxy].
    + constructor; [now constructor|].
      constructor; [exact Hxy|].
      eapply Forall_impl; [|exact Hy]. unfold key_le. intros; lia.
    + constructor; [exact IH|].
      eapply Permutation_Forall; [symmetry; apply insert_by_perm|].
      constructor; [unfold key_le; lia | exact Hy].
Qed.

Lemma order_by_sorted (l : list A) : StronglySorted (key_le key) (order_by key l).
Proof.
  induction l as [|x l IH]; cbn; [constructor|].
  apply insert_by_sorted, IH.
Qed.

(** Rewriting rows without touching the key does not change the order. *)
Lemma insert_by_map (f : A -> A) (Hf : forall a, key (f a) = key a)
  (x : A) (l : list A) :
  insert_by key (f x) (map f l) = map f (insert_by key x l).
Proof.
  induction l as [|y l IH]; cbn [insert_by map]; [reflexivity|].
  rewrite !Hf. destruct (key x <=? key y); cbn [map]; congruence.
Qed.

Lemma order_by_map (f : A -> A) (Hf : forall a, key (f a) = key a)
  (l : list A) :
  order_by key (map f l) = map f (order_by key l).
Proof.
  induction l as [|x l IH]; cbn; [reflexivity|].
  fold (order_by key (map f l)) (order_by key l).
  rewrite IH. now apply insert_by_map.
Qed.

End OrderBy.

Lemma filter_map_commute {A : Type} (t : A -> bool) (f : A -> A)
  (Hf : forall a, t (f a) = t a) (l : list A) :
  filter t (map f l) = map f (filter t l).
Proof.
  induction l as [|x l IH]; cbn; [reflexivity|].
  rewrite Hf. destruct (t x); cbn; congruence.
Qed.

Lemma NoDup_map_filter {A B : Type} (f : A -> B) (t : A -> bool) (l : list A) :
  NoDup (map f l) -> NoDup (map f (filter t l)).
Proof.
  induction l as [|x l IH]; cbn; [trivial|].
  intros H. inversion H as [|? ? Hx Hl]; subst.
  destruct (t x); cbn; [|now apply IH].
  constructor; [|now apply IH].
  intros Hin. apply Hx. apply in_map_iff in Hin as (y & Hy & Hin).
  apply in_map_iff. exists y. split; [exact Hy|].
  apply filter_In in Hin. tauto.
Qed.

Lemma NoDup_map_firstn {A B : Type} (f : A -> B) (n : nat) (l : list A) :
  NoDup (map f l) -> NoDup (map f (firstn n l)).
Proof.
  intros H. rewrite <- (firstn_skipn n (map f l)) in H.
  apply NoDup_app_remove_r in H. now rewrite firstn_map in H.
Qed.

Lemma fresh_id_above (ids : list Z) (x : Z) : In x ids -> x < fresh_id ids.
Proof.
  unfold fresh_id. induction ids as [|y ids IH]; cbn [fold_right In]; [tauto|].
  intros [->|Hin]; [lia|]. specialize (IH Hin). lia.
Qed.

(** ** Numbering the participants *)

Lemma position_None (pid : Z) (ps : list Participant.t) :
  ~ In pid (map Participant.id ps) -> position pid ps = None.
Proof.
  induction ps as [|p ps IH]; cbn [position map In]; [reflexivity|].
  intros H. destruct (Z.eqb_spec (Participant.id p) pid); [tauto|].
  rewrite IH by tauto. reflexivity.
Qed.

Lemma position_nth (ps : list Participant.t) :
  NoDup (map Participant.id ps) ->
  forall i p, nth_error ps i = Some p -> position (Participant.id p) ps = Some i.
Proof.
  induction ps as [|q ps IH]; intros Hnd [|i] p Hp; cbn in Hp; try discriminate.
  - injection Hp as ->. cbn [position]. now rewrite Z.eqb_refl.
  - cbn [map] in Hnd. inversion Hnd as [|? ? Hq Hps]; subst.
    cbn [position].
    destruct (Z.eqb_spec (Participant.id q) (Participant.id p)) as [E|_].
    + exfalso. apply Hq. rewrite E. apply in_map. eapply nth_error_In, Hp.
    + rewrite (IH Hps i p Hp). reflexivity.
Qed.

Lemma indexed_row_keeps (start : Z) (ps : list Participant.t) (r : Participant.t) :
  Participant.id (indexed_row start ps r) = Participant.id r
  /\ Participant.round_id (indexed_row start ps r) = Participant.round_id r
  /\ Participant.created_at (indexed_row start ps r) = Participant.created_at r
  /\ Participant.btc_address (indexed_row start ps r) = Participant.btc_address r.
Proof.
  unfold indexed_row. destruct (position _ ps); repeat split; reflexivity.
Qed.

(** The loop of lines 111-112, row by row. *)
Lemma assign_from_rows (ps : list Participant.t) :
  NoDup (map Participant.id ps) ->
  forall start tbl,
    assign_from start ps tbl = map (indexed_row start ps) tbl.
Proof.
  induction ps as [|p ps IH]; intros Hnd start tbl.
  - cbn. symmetry. rewrite <- (map_id tbl) at 2. reflexivity.
  - cbn [map] in Hnd. inversion Hnd as [|? ? Hp Hps]; subst.
    cbn [assign_from]. rewrite (IH Hps). unfold update_round_index.
    rewrite map_map. apply map_ext. intros r.
    unfold indexed_row at 2. cbn [position].
    rewrite (Z.eqb_sym (Participant.id p)).
    destruct (Z.eqb_spec (Participant.id r) (Participant.id p)) as [E|_].
    + unfold indexed_row. cbn [Participant.set_round_index Participant.id].
      rewrite E, position_None by exact Hp.
      unfold Participant.set_round_index. do 2 f_equal. lia.
    + unfold indexed_row. destruct (position (Participant.id r) ps); cbn [option_map].
      * unfold Participant.set_round_index. do 2 f_equal. lia.
      * reflexivity.
Qed.

Lemma load_participants_ids_NoDup (round_id : Z) (db : Db) :
  NoDup (map Participant.id (participants db)) ->
  NoDup (map Participant.id (load_participants round_id db)).
Proof.
  intros H. unfold load_participants.
  eapply Permutation_NoDup.
  - symmetry. apply Permutation_map, order_by_perm.
  - now apply NoDup_map_filter.
Qed.

Lemma load_participants_length (round_id : Z) (db : Db) :
  List.length (load_participants round_id db) = participant_count round_id db.
Proof. apply order_by_length. Qed.

(** After the numbering the query of line 104 returns the same rows in the
    same order, each numbered by its position among the first ten. *)
Lemma load_participants_indexed (round_id : Z) (db : Db) :
  NoDup (map Participant.id (participants db)) ->
  let ps := load_participants round_id db in
  participants (assign_round_indices ps db)
  = map (indexed_row 1 (firstn 10 ps)) (participants db)
  /\ load_participants round_id (assign_round_indices ps db)
     = map (indexed_row 1 (firstn 10 ps)) ps.
Proof.
  intros Hnd ps.
  assert (Htbl : participants (assign_round_indices ps db)
                 = map (indexed_row 1 (firstn 10 ps)) (participants db)).
  { cbn [assign_round_indices participants]. apply assign_from_rows.
    apply NoDup_map_firstn, load_participants_ids_NoDup, Hnd. }
  split; [exact Htbl|].
  unfold load_participants at 1. rewrite Htbl.
  rewrite filter_map_commute
    by (intros a; now rewrite (proj1 (proj2 (indexed_row_keeps _ _ a)))).
  apply order_by_map. intros a. apply indexed_row_keeps.
Qed.

(** Numbering twice is numbering once. *)
Lemma assign_round_indices_idem (round_id : Z) (db : Db) :
  NoDup (map Participant.id (participants db)) ->
  let db' := assign_round_indices (load_participants round_id db) db in
  assign_round_indices (load_participants round_id db') db' = db'.
Proof.
  intros Hnd db'.
  destruct (load_participants_indexed round_id db Hnd) as [Htbl Hps].
  fold db' in Htbl, Hps.
  set (ps := load_participants round_id db) in *.
  set (g := indexed_row 1 (firstn 10 ps)) in *.
  assert (Hids : forall l, map Participant.id (map g l) = map Participant.id l).
  { intros l. rewrite map_map. apply map_ext. intros a. apply indexed_row_keeps. }
  assert (Hnd10 : NoDup (map Participant.id (firstn 10 ps))).
  { apply NoDup_map_firstn, load_participants_ids_NoDup, Hnd. }
  unfold assign_round_indices at 1. rewrite Hps, Htbl.
  rewrite assign_from_rows.
  2:{ rewrite firstn_map, Hids. exact Hnd10. }
  unfold db', assign_round_indices. fold ps. f_equal.
  rewrite assign_from_rows by exact Hnd10. fold g.
  rewrite map_map. apply map_ext. intros r.
  assert (Hpos : forall pid, position pid (firstn 10 (map g ps))
                             = position pid (firstn 10 ps)).
  { intros pid. rewrite firstn_map.
    generalize (firstn 10 ps). intros l.
    induction l as [|q l IHl]; cbn [map position]; [reflexivity|].
    unfold g at 1. rewrite (proj1 (indexed_row_keeps _ _ q)).
    now rewrite IHl. }
  unfold indexed_row at 1. rewrite Hpos.
  replace (Participant.id (g r)) with (Participant.id r)
    by (symmetry; apply indexed_row_keeps).
  unfold g, indexed_row.
  destruct (position (Participant.id r) (firstn 10 ps)); reflexivity.
Qed.

(** ** The paths through [close_round] *)

Ltac unfold_session :=
  unfold close_round, close_round_session, open_check, load_step, index_step,
    fetch_step, draw_step, record_payout_transactions, create_next_round,
    commit_writes, bind, query, ret, stop.

Ltac unfold_session_in H :=
  unfold close_round, close_round_session, open_check, load_step, index_step,
    fetch_step, draw_step, record_payout_transactions, create_next_round,
    commit_writes, bind, query, ret, stop in H.

Lemma count_ltb (round_id : Z) (db : Db) :
  (List.length (load_participants round_id db) <? 10)%nat
  = (participant_count round_id db <? 10)%nat.
Proof. now rewrite load_participants_length. Qed.

Lemma close_round_not_open (w : World) (round_id : Z) (db : Db) :
  find_open_round round_id db = None ->
  close_round w round_id db = (NoOpenRound, db).
Proof. intros H. unfold_session. rewrite H. reflexivity. Qed.

Lemma close_round_few (w : World) (round_id : Z) (db : Db) (r : Round.t) :
  find_open_round round_id db = Some r ->
  (participant_count round_id db < 10)%nat ->
  close_round w round_id db
  = (TooFewParticipants (participant_count round_id db), db).
Proof.
  intros Ho Hn. unfold_session. rewrite Ho, count_ltb.
  destruct (Nat.ltb_spec (participant_count round_id db) 10); [|lia].
  now rewrite load_participants_length.
Qed.

Lemma close_round_commit_indices_fails (w : World) (round_id : Z) (db : Db)
  (r : Round.t) :
  find_open_round round_id db = Some r ->
  (10 <= participant_count round_id db)%nat ->
  commit_fails w CommitIndices = true ->
  close_round w round_id db = (Raised (CommitError CommitIndices), db).
Proof.
  intros Ho Hn Hc. unfold_session. rewrite Ho, count_ltb.
  destruct (Nat.ltb_spec (participant_count round_id db) 10); [lia|].
  rewrite Hc. reflexivity.
Qed.

Lemma close_round_no_hash (w : World) (round_id : Z) (db : Db) (r : Round.t) :
  find_open_round round_id db = Some r ->
  (10 <= participant_count round_id db)%nat ->
  commit_fails w CommitIndices = false ->
  get_latest_block_hash (http w) = None
  \/ get_latest_block_hash (http w) = Some EmptyString ->
  close_round w round_id db
  = (NoBlockHash, assign_round_indices (load_participants round_id db) db).
Proof.
  intros Ho Hn Hc Hh. unfold_session. rewrite Ho, count_ltb.
  destruct (Nat.ltb_spec (participant_count round_id db) 10); [lia|].
  rewrite Hc. destruct Hh as [-> | ->]; reflexivity.
Qed.

(** The path through the draw: the closure is committed, then the
    settlement and the successor are attempted in turn. *)
Lemma close_round_drawn (w : World) (round_id : Z) (db : Db) (r : Round.t)
  (block_hash : string) (winner_idx : Z) (p : Participant.t) :
  find_open_round round_id db = Some r ->
  (10 <= participant_count round_id db)%nat ->
  commit_fails w CommitIndices = false ->
  get_latest_block_hash (http w) = Some block_hash ->
  str_falsy block_hash = false ->
  get_winner_index block_hash 10 = Return (Some winner_idx) ->
  py_getitem (load_participants round_id db) winner_idx = Some p ->
  commit_fails w CommitClosure = false ->
  let a := Participant.btc_address p in
  let db1 := assign_round_indices (load_participants round_id db) db in
  let db2 := mark_closed round_id (utcnow w ClockClosedAt) a db1 in
  let db3 := mkDb (rounds db2) (participants db2)
               (transactions db2 ++ settlement_rows w a db2) in
  let db4 := mkDb (rounds db3 ++ [new_round_row w db3]) (participants db3)
               (transactions db3) in
  close_round w round_id db
  = if commit_fails w CommitSettlement
    then (Raised (CommitError CommitSettlement), db2)
    else if commit_fails w CommitNextRound
         then (Raised (CommitError CommitNextRound), db3)
         else (Closed a (Round.id (new_round_row w db3)), db4).
Proof.
  intros Ho Hn Hc Hh Hf Hi Hp Hcc. unfold_session. rewrite Ho, count_ltb.
  destruct (Nat.ltb_spec (participant_count round_id db) 10); [lia|].
  rewrite Hc, Hh, Hf, Hi, Hp, Hcc.
  destruct (commit_fails w CommitSettlement); [reflexivity|].
  destruct (commit_fails w CommitNextRound); reflexivity.
Qed.

(** A closure that ran to the end went through every step. *)
Lemma close_round_closed_inv (w : World) (round_id : Z) (db db' : Db)
  (a : string) (next_id : Z) :
  close_round w round_id db = (Closed a next_id, db') ->
  exists r block_hash winner_idx p,
    find_open_round round_id db = Some r
    /\ (10 <= participant_count round_id db)%nat
    /\ get_latest_block_hash (http w) = Some block_hash
    /\ str_falsy block_hash = false
    /\ get_winner_index block_hash 10 = Return (Some winner_idx)
    /\ py_getitem (load_participants round_id db) winner_idx = Some p
    /\ a = Participant.btc_address p
    /\ (forall c, commit_fails w c = false)
    /\ let db1 := assign_round_indices (load_participants round_id db) db in
       let db2 := mark_closed round_id (utcnow w ClockClosedAt) a db1 in
       let db3 := mkDb (rounds db2) (participants db2)
                    (transactions db2 ++ settlement_rows w a db2) in
       next_id = Round.id (new_round_row w db3)
       /\ db' = mkDb (rounds db3 ++ [new_round_row w db3]) (participants db3)
                  (transactions db3).
Proof.
  intros H. unfold_session_in H.
  destruct (find_open_round round_id db) as [r|] eqn:Ho; [|discriminate].
  cbn beta iota in H. rewrite count_ltb in H.
  destruct (Nat.ltb_spec (participant_count round_id db) 10); [discriminate|].
  destruct (commit_fails w CommitIndices) eqn:C1; [discriminate|].
  destruct (get_latest_block_hash (http w)) as [h|] eqn:Hh; [|discriminate].
  destruct (str_falsy h) eqn:Hf; [discriminate|].
  destruct (get_winner_index h 10) as [[i|]|] eqn:Hi; try discriminate.
  destruct (py_getitem _ i) as [p|] eqn:Hp; [|discriminate].
  destruct (commit_fails w CommitClosure) eqn:C2; [discriminate|].
  destruct (commit_fails w CommitSettlement) eqn:C3; [discriminate|].
  destruct (commit_fails w CommitNextRound) eqn:C4; [discriminate|].
  injection H as <- <- <-.
  exists r, h, i, p. repeat split; try assumption; try reflexivity.
  intros []; assumption.
Qed.

Lemma NoDup_map_injective {A B : Type} (f : A -> B) (l : list A) :
  NoDup (map f l) ->
  forall x y, In x l -> In y l -> f x = f y -> x = y.
Proof.
  induction l as [|a l IH]; cbn [map]; intros Hnd x y Hx Hy E; [destruct Hx|].
  inversion Hnd as [|? ? Ha Hl]; subst.
  destruct Hx as [->|Hx], Hy as [->|Hy]; trivial.
  - exfalso. apply Ha. rewrite E. now apply in_map.
  - exfalso. apply Ha. rewrite <- E. now apply in_map.
  - now apply IH.
Qed.

Lemma nth_error_Some_lt {A : Type} (l : list A) (n : nat) (x : A) :
  nth_error l n = Some x -> (n < List.length l)%nat.
Proof. intros H. apply nth_error_Some. congruence. Qed.

Lemma firstn_In_list {A : Type} (n : nat) (l : list A) (x : A) :
  In x (firstn n l) -> In x l.
Proof.
  intros H. rewrite <- (firstn_skipn n l). apply in_or_app. now left.
Qed.

Lemma load_participants_In (round_id : Z) (db : Db) (p : Participant.t) :
  In p (load_participants round_id db) ->
  In p (participants db) /\ Participant.round_id p = round_id.
Proof.
  intros H. unfold load_participants in H.
  eapply Permutation_in in H; [|apply order_by_perm].
  apply filter_In in H as [Hin E]. split; [exact Hin|]. lia.
Qed.

Lemma load_participants_ext (round_id : Z) (db1 db2 : Db) :
  participants db1 = participants db2 ->
  load_participants round_id db1 = load_participants round_id db2.
Proof. unfold load_participants. now intros ->. Qed.

(** [close_round] writes the participants table in the numbering step
    only. *)
Lemma close_round_participants (w : World) (round_id : Z) (db : Db) :
  participants (snd (close_round w round_id db)) = participants db
  \/ participants (snd (close_round w round_id db))
     = participants (assign_round_indices (load_participants round_id db) db).
Proof.
  unfold_session.
  destruct (find_open_round round_id db); [|now left].
  cbn beta iota.
  destruct (List.length (load_participants round_id db) <? 10)%nat; [now left|].
  destruct (commit_fails w CommitIndices); [now left|].
  right.
  destruct (get_latest_block_hash (http w)) as [h|]; [|reflexivity].
  destruct (str_falsy h); [reflexivity|].
  destruct (get_winner_index h 10) as [[i|]|]; try reflexivity.
  destruct (py_getitem _ i); [|reflexivity].
  destruct (commit_fails w CommitClosure); [reflexivity|].
  destruct (commit_fails w CommitSettlement); [reflexivity|].
  destruct (commit_fails w CommitNextRound); reflexivity.
Qed.

Lemma close_round_participants_indexed (w : World) (round_id : Z) (db : Db)
  (r : Round.t) :
  find_open_round round_id db = Some r ->
  (10 <= participant_count round_id db)%nat ->
  commit_fails w CommitIndices = false ->
  participants (snd (close_round w round_id db))
  = participants (assign_round_indices (load_participants round_id db) db).
Proof.
  intros Ho Hn Hc. unfold_session. rewrite Ho, count_ltb.
  destruct (Nat.ltb_spec (participant_count round_id db) 10); [lia|].
  rewrite Hc.
  destruct (get_latest_block_hash (http w)) as [h|]; [|reflexivity].
  destruct (str_falsy h); [reflexivity|].
  destruct (get_winner_index h 10) as [[i|]|]; try reflexivity.
  destruct (py_getitem _ i); [|reflexivity].
  destruct (commit_fails w CommitClosure); [reflexivity|].
  destruct (commit_fails w CommitSettlement); [reflexivity|].
  destruct (commit_fails w CommitNextRound); reflexivity.
Qed.

(** ** Claims on the closure *)

(** C3.  For every open round with fewer than 10 participants,
    [close_round] ends on the too-few-participants path
    (InsufficientParticipants) and the database is exactly what it was: the
    round is still the open round of that id, no [round_index] is assigned,
    no winner is recorded, no transaction is inserted and no round is
    added. *)
Theorem close_round_insufficient (w : World) (round_id : Z) (db : Db)
  (r : Round.t) :
  find_open_round round_id db = Some r ->
  (participant_count round_id db < 10)%nat ->
  close_round w round_id db
  = (TooFewParticipants (participant_count round_id db), db)
  /\ find_open_round round_id (snd (close_round w round_id db)) = Some r
  /\ rounds (snd (close_round w round_id db)) = rounds db
  /\ participants (snd (close_round w round_id db)) = participants db
  /\ transactions (snd (close_round w round_id db)) = transactions db.
Proof.
  intros Ho Hn. rewrite (close_round_few w round_id db r Ho Hn).
  cbn [snd]. auto.
Qed.

Lemma close_round_insufficient_witness :
  close_round (Sample.world "1a") 1 (Sample.db_with 9)
  = (TooFewParticipants 9, Sample.db_with 9).
Proof.
  exact (proj1 (close_round_insufficient (Sample.world "1a") 1
                  (Sample.db_with 9) Sample.open_round
                  ltac:(reflexivity) ltac:(vm_compute; lia))).
Defined.

(** Two sorted arrangements of the same rows are the same list when the
    keys are distinct. *)
Lemma sorted_perm_unique {A : Type} (key : A -> Z) (l1 : list A) :
  forall l2,
    NoDup (map key l1) ->
    StronglySorted (key_le key) l1 ->
    StronglySorted (key_le key) l2 ->
    Permutation l1 l2 ->
    l1 = l2.
Proof.
  induction l1 as [|a l1 IH]; intros l2 Hnd H1 H2 Hp.
  - apply Permutation_nil in Hp. now subst.
  - destruct l2 as [|b l2].
    { apply Permutation_sym, Permutation_nil in Hp. discriminate. }
    cbn [map] in Hnd. inversion Hnd as [|? ? Ha Hnd']; subst.
    apply StronglySorted_inv in H1 as [H1 Ha1].
    apply StronglySorted_inv in H2 as [H2 Hb2].
    assert (Hab : a = b).
    { assert (Hin_a : In a (b :: l2))
        by (eapply Permutation_in; [exact Hp | now left]).
      assert (Hin_b : In b (a :: l1))
        by (eapply Permutation_in; [symmetry; exact Hp | now left]).
      destruct Hin_a as [E|Hin_a]; [now symmetry|].
      destruct Hin_b as [E|Hin_b]; [exact E|].
      exfalso. apply Ha.
      pose proof (proj1 (Forall_forall _ _) Ha1 b Hin_b) as Hle1.
      pose proof (proj1 (Forall_forall _ _) Hb2 a Hin_a) as Hle2.
      unfold key_le in Hle1, Hle2.
      replace (key a) with (key b) by lia. now apply in_map. }
    subst b. f_equal. apply IH; try assumption.
    now apply Permutation_cons_inv with (a := a).
Qed.

Lemma indexed_row_key (start : Z) (ps : list Participant.t)
  (a : Participant.t) :
  participant_key (indexed_row start ps a) = participant_key a.
Proof.
  unfold participant_key, indexed_row.
  destruct (position (Participant.id a) ps); reflexivity.
Qed.

Lemma load_participants_answer (round_id : Z) (db : Db) :
  query_answer round_id db (load_participants round_id db).
Proof. split; [apply order_by_sorted | apply order_by_perm]. Qed.

(** With distinct times of arrival the query has one answer. *)
Lemma query_answer_unique (round_id : Z) (db : Db) (qs : list Participant.t) :
  distinct_arrivals round_id db ->
  query_answer round_id db qs ->
  qs = load_participants round_id db.
Proof.
  intros Hd [Hs Hp].
  apply (sorted_perm_unique Participant.created_at); try assumption.
  - eapply Permutation_NoDup; [|exact Hd].
    apply Permutation_map. now symmetry.
  - apply order_by_sorted.
  - etransitivity; [exact Hp|]. symmetry. apply order_by_perm.
Qed.

Lemma distinct_arrivals_keys (round_id : Z) (db db' : Db) :
  map participant_key (participants db')
  = map participant_key (participants db) ->
  distinct_arrivals round_id db -> distinct_arrivals round_id db'.
Proof.
  unfold distinct_arrivals. intros H.
  assert (E : map Participant.created_at
                (filter (fun p => Participant.round_id p =? round_id)
                   (participants db'))
              = map Participant.created_at
                  (filter (fun p => Participant.round_id p =? round_id)
                     (participants db))); [|now rewrite E].
  revert H. generalize (participants db). generalize (participants db').
  induction l as [|x l IH]; intros [|y l0] H; try discriminate;
    [reflexivity|].
  cbn [map] in H. injection H as Hi Hr Ha Hc Hl.
  cbn [filter]. rewrite Hr.
  destruct (Participant.round_id y =? round_id); cbn [map];
    rewrite (IH _ Hl); congruence.
Qed.

(** C4, as the code has it.  For an open round with at least 10
    participants, no two of whom arrived at the same time (primary keys
    distinct, numbering committed): the query of line 104 has one answer,
    the participants of the round in order of arrival; closure writes
    [round_index] [i + 1] on the participant at position [i] of that order
    for the first ten and leaves every other row of the table as it was;
    and running the indexing step again, on any answer of the query and in
    any world, leaves the participants table as it is.  (Line 104 has no
    tie-breaker: when two participants arrived at the same time their
    order, and so their numbers, are the engine's choice.) *)
Theorem numbering_follows_arrival (w : World) (round_id : Z) (db : Db)
  (r : Round.t) :
  NoDup (map Participant.id (participants db)) ->
  distinct_arrivals round_id db ->
  find_open_round round_id db = Some r ->
  (10 <= participant_count round_id db)%nat ->
  commit_fails w CommitIndices = false ->
  let db' := snd (close_round w round_id db) in
  let ps := load_participants round_id db in
  (forall qs, query_answer round_id db qs -> qs = ps)
  /\ query_answer round_id db ps
  /\ (10 <= List.length ps)%nat
  /\ participants db' = map (indexed_row 1 (firstn 10 ps)) (participants db)
  /\ (forall i p, (i < 10)%nat -> nth_error ps i = Some p ->
      In p (participants db)
      /\ In (Participant.set_round_index (Z.of_nat i + 1) p)
           (participants db'))
  /\ (forall p, In p (participants db) -> ~ In p (firstn 10 ps) ->
      In p (participants db'))
  /\ map participant_key (participants db')
     = map participant_key (participants db)
  /\ (forall qs', query_answer round_id db' qs' ->
      map participant_key qs' = map participant_key ps
      /\ (forall i p, (i < 10)%nat -> nth_error qs' i = Some p ->
          Participant.round_index p = Some (Z.of_nat i + 1))
      /\ (forall i p, (10 <= i)%nat -> nth_error qs' i = Some p ->
          nth_error ps i = Some p))
  /\ (forall w' qs', query_answer round_id db' qs' ->
      participants (snd (index_step w' qs' db')) = participants db')
  /\ (forall w', participants (snd (close_round w' round_id db'))
                 = participants db').
Proof.
  intros Hnd Hd Ho Hn Hc db' ps.
  pose proof (close_round_participants_indexed w round_id db r Ho Hn Hc) as Hdb'.
  fold db' ps in Hdb'.
  destruct (load_participants_indexed round_id db Hnd) as [Htbl Hps].
  fold ps in Htbl, Hps.
  set (g := indexed_row 1 (firstn 10 ps)) in *.
  assert (Htbl' : participants db' = map g (participants db))
    by now rewrite Hdb'.
  assert (Hkeys : map participant_key (participants db')
                  = map participant_key (participants db)).
  { rewrite Htbl', map_map. apply map_ext. intros a.
    apply indexed_row_key. }
  assert (Hd' : distinct_arrivals round_id db')
    by exact (distinct_arrivals_keys round_id db db' Hkeys Hd).
  assert (Hload' : load_participants round_id db' = map g ps).
  { rewrite (load_participants_ext round_id db' _ Hdb'). exact Hps. }
  assert (Hnd_ps : NoDup (map Participant.id ps))
    by (apply load_participants_ids_NoDup, Hnd).
  assert (Hnd10 : NoDup (map Participant.id (firstn 10 ps)))
    by (apply NoDup_map_firstn, Hnd_ps).
  assert (Hfirst : forall i p, (i < 10)%nat -> nth_error ps i = Some p ->
                     g p = Participant.set_round_index (Z.of_nat i + 1) p).
  { intros i p Hi Hp. unfold g, indexed_row.
    rewrite (position_nth _ Hnd10 i p).
    - f_equal. lia.
    - rewrite nth_error_firstn.
      destruct (Nat.ltb_spec i 10); [exact Hp | lia]. }
  assert (Hrest : forall p, In p (participants db) ->
                    ~ In p (firstn 10 ps) -> g p = p).
  { intros p Hin Hout. unfold g, indexed_row.
    rewrite position_None; [reflexivity|].
    intros Hq. apply in_map_iff in Hq as (q & Eq & Hq).
    pose proof (firstn_In_list _ _ _ Hq) as Hq'.
    apply load_participants_In in Hq' as [Hq' _].
    assert (q = p)
      by exact (NoDup_map_injective Participant.id _ Hnd q p Hq' Hin Eq).
    subst q. contradiction. }
  assert (Hidem : assign_from 1 (firstn 10 (map g ps)) (participants db')
                  = participants db').
  { pose proof (assign_round_indices_idem round_id db Hnd) as E.
    cbv zeta in E. fold ps in E. rewrite Hps in E.
    apply (f_equal participants) in E.
    cbn [assign_round_indices participants] in E.
    rewrite Hdb'. exact E. }
  split; [intros qs Hqs; now apply query_answer_unique|].
  split; [apply load_participants_answer|].
  split; [unfold ps; now rewrite load_participants_length|].
  split; [exact Htbl'|].
  split.
  { intros i p Hi Hp.
    assert (Hin : In p (participants db)).
    { apply nth_error_In in Hp. now apply load_participants_In in Hp. }
    split; [exact Hin|].
    rewrite Htbl', <- (Hfirst i p Hi Hp). now apply in_map. }
  split.
  { intros p Hin Hout. rewrite Htbl'.
    rewrite <- (Hrest p Hin Hout) at 1. now apply in_map. }
  split; [exact Hkeys|].
  split.
  { intros qs' Hqs'.
    rewrite (query_answer_unique round_id db' qs' Hd' Hqs'), Hload'.
    split; [|split].
    - rewrite map_map. apply map_ext. intros a. apply indexed_row_key.
    - intros i p Hi Hp. rewrite nth_error_map in Hp.
      destruct (nth_error ps i) as [p0|] eqn:Hp0; [|discriminate].
      injection Hp as <-. now rewrite (Hfirst i p0 Hi Hp0).
    - intros i p Hi Hp. rewrite nth_error_map in Hp.
      destruct (nth_error ps i) as [p0|] eqn:Hp0; [|discriminate].
      injection Hp as <-. f_equal. symmetry. apply Hrest.
      + apply nth_error_In in Hp0. now apply load_participants_In in Hp0.
      + intros Hin. apply In_nth_error in Hin as [j Hj].
        assert (Hj10 : (j < 10)%nat).
        { apply nth_error_Some_lt in Hj. rewrite length_firstn in Hj. lia. }
        rewrite nth_error_firstn in Hj.
        destruct (Nat.ltb_spec j 10); [|lia].
        assert (j = i); [|lia].
        eapply (proj1 (NoDup_nth_error _) Hnd_ps).
        * rewrite length_map. now apply nth_error_Some_lt in Hj.
        * rewrite !nth_error_map, Hj, Hp0. reflexivity. }
  split.
  { intros w' qs' Hqs'.
    rewrite (query_answer_unique round_id db' qs' Hd' Hqs'), Hload'.
    unfold index_step, commit_writes.
    destruct (commit_fails w' CommitIndices); cbn [snd]; [reflexivity|].
    exact Hidem. }
  intros w'.
  destruct (close_round_participants w' round_id db') as [E|E]; [exact E|].
  rewrite E. cbn [assign_round_indices participants]. rewrite Hload'.
  exact Hidem.
Qed.

Lemma numbering_follows_arrival_witness :
  participants (snd (close_round Sample.world_down 1 (Sample.db_with 11)))
  = map (indexed_row 1 (firstn 10 (load_participants 1 (Sample.db_with 11))))
      (participants (Sample.db_with 11))
  /\ (10 <= List.length (load_participants 1 (Sample.db_with 11)))%nat.
Proof.
  pose proof (numbering_follows_arrival Sample.world_down 1 (Sample.db_with 11)
                Sample.open_round
                ltac:(vm_compute; repeat (constructor; [simpl; lia|]); constructor)
                ltac:(vm_compute; repeat (constructor; [simpl; lia|]); constructor)
                ltac:(reflexivity)
                ltac:(vm_compute; lia)
                ltac:(reflexivity))
    as (_ & _ & H3 & H4 & _).
  split; [exact H4 | exact H3].
Defined.

(** C4, as the specification words it, fails when two participants arrived
    at the same time.  In the sample round of ten whose first two
    participants share [created_at], the rows in table order and the rows
    with those two exchanged are both answers to the query of line 104; an
    attempt numbers the participants from the first, and the indexing step
    run again from the second gives the two participants each other's
    number: the table is not the one the first run left. *)
Lemma tied_arrivals_renumber :
  (10 <= participant_count 1 Sample.tied_db)%nat
  /\ query_answer 1 Sample.tied_db Sample.tied_first
  /\ snd (index_step (Sample.world "1a") Sample.tied_first Sample.tied_db)
     = Sample.tied_numbered
  /\ query_answer 1 Sample.tied_numbered Sample.tied_second
  /\ map Participant.round_index
       (firstn 2 (participants Sample.tied_numbered))
     = [Some 1; Some 2]
  /\ map Participant.round_index
       (firstn 2 (participants
                    (snd (index_step (Sample.world "1b") Sample.tied_second
                            Sample.tied_numbered))))
     = [Some 2; Some 1]
  /\ participants (snd (index_step (Sample.world "1b") Sample.tied_second
                          Sample.tied_numbered))
     <> participants Sample.tied_numbered.
Proof.
  split; [vm_compute; lia|].
  split; [apply load_participants_answer|].
  split; [reflexivity|].
  split.
  { split.
    - cbv -[Z.le].
      repeat (constructor; [|repeat (constructor; [lia|]); constructor]).
      constructor.
    - apply perm_trans with (load_participants 1 Sample.tied_numbered);
        [|apply order_by_perm].
      unfold Sample.tied_second.
      set (l := load_participants 1 Sample.tied_numbered).
      vm_compute in l. subst l. cbv beta iota. apply perm_swap. }
  split; [reflexivity|].
  split; [reflexivity|].
  vm_compute. discriminate.
Qed.

(** ** Rounds *)

Lemma find_open_round_Some (round_id : Z) (db : Db) (r : Round.t) :
  find_open_round round_id db = Some r ->
  In r (rounds db) /\ Round.id r = round_id /\ Round.status r = "open".
Proof.
  intros H. apply find_some in H as [Hin Hb].
  apply andb_prop in Hb as [Hid Hst].
  repeat split; [exact Hin | lia | now apply String.eqb_eq].
Qed.

Lemma find_open_round_None (round_id : Z) (db : Db) :
  (forall r, In r (rounds db) -> Round.id r = round_id ->
             Round.status r <> "open") ->
  find_open_round round_id db = None.
Proof.
  unfold find_open_round. induction (rounds db) as [|r rs IH]; intros H;
    cbn [find]; [reflexivity|].
  destruct (Z.eqb_spec (Round.id r) round_id) as [E|_]; cbn [andb].
  - destruct (String.eqb_spec (Round.status r) "open") as [Es|_].
    + exfalso. exact (H r (or_introl eq_refl) E Es).
    + apply IH. intros r' Hr'. apply H. now right.
  - apply IH. intros r' Hr'. apply H. now right.
Qed.

Lemma mark_closed_ids (round_id now : Z) (a : string) (db : Db) :
  map Round.id (rounds (mark_closed round_id now a db)) = map Round.id (rounds db).
Proof.
  cbn [mark_closed rounds]. rewrite map_map. apply map_ext. intros r.
  destruct (Round.id r =? round_id); reflexivity.
Qed.

Lemma mark_closed_rows (round_id now : Z) (a : string) (db : Db) (r : Round.t) :
  In r (rounds (mark_closed round_id now a db)) ->
  Round.id r = round_id ->
  Round.status r = "closed" /\ Round.closed_at r = Some now
  /\ Round.winner r = Some a.
Proof.
  cbn [mark_closed rounds]. intros Hin Hid.
  apply in_map_iff in Hin as (r0 & E & _). subst r.
  destruct (Z.eqb_spec (Round.id r0) round_id); cbn in *; tauto.
Qed.

Lemma mark_closed_address (round_id now : Z) (a : string) (db : Db) (r : Round.t) :
  In r (rounds (mark_closed round_id now a db)) ->
  exists r0, In r0 (rounds db)
             /\ Round.deposit_address r = Round.deposit_address r0.
Proof.
  cbn [mark_closed rounds]. intros Hin.
  apply in_map_iff in Hin as (r0 & E & Hin). exists r0. subst r.
  destruct (Round.id r0 =? round_id); auto.
Qed.

(** Once the closure is committed no row of that id is open, whatever rows
    with other ids are added after it. *)
Lemma closed_round_not_open (round_id now : Z) (a : string) (db db' : Db)
  (extra : list Round.t) :
  rounds db' = (rounds (mark_closed round_id now a db) ++ extra)%list ->
  (forall r, In r extra -> Round.id r <> round_id) ->
  find_open_round round_id db' = None.
Proof.
  intros E Hx. apply find_open_round_None. rewrite E. intros r Hin Hid.
  apply in_app_or in Hin as [Hin|Hin].
  - destruct (mark_closed_rows _ _ _ _ _ Hin Hid) as (-> & _). discriminate.
  - exfalso. exact (Hx r Hin Hid).
Qed.

Lemma new_round_row_fresh (w : World) (db : Db) (x : Z) :
  In x (map Round.id (rounds db)) -> Round.id (new_round_row w db) <> x.
Proof.
  intros H. apply fresh_id_above in H. cbn [new_round_row Round.id]. lia.
Qed.

(** The beacon is unavailable exactly when the request raises or answers
    with a status other than 200. *)
Lemma get_latest_block_hash_None (resp : http_result) :
  get_latest_block_hash resp = None
  <-> resp = HttpException
      \/ exists status_code text,
           resp = HttpResponse status_code text /\ status_code <> 200.
Proof.
  split.
  - destruct resp as [c t|]; cbn; [|now left].
    destruct (Z.eqb_spec c 200); [discriminate|]. right. now exists c, t.
  - intros [->|(c & t & -> & Hc)]; cbn; [reflexivity|].
    destruct (Z.eqb_spec c 200); [contradiction | reflexivity].
Qed.

(** C7.  When the round is open with at least 10 participants, the
    numbering is committed and the beacon supplies no value (the request
    raises, answers with a status other than 200, or answers with an empty
    body), [close_round] ends on the no-block-hash path (UnavailableError): the
    rounds table is what it was, so the round is still the open round of
    its id with the winner and [closed_at] it had; the participants table
    holds the numbering of the indexing step; no transaction is inserted
    and no round is added. *)
Theorem beacon_failure_leaves_round_open (w : World) (round_id : Z) (db : Db)
  (r : Round.t) :
  find_open_round round_id db = Some r ->
  (10 <= participant_count round_id db)%nat ->
  commit_fails w CommitIndices = false ->
  get_latest_block_hash (http w) = None
  \/ get_latest_block_hash (http w) = Some EmptyString ->
  let db' := snd (close_round w round_id db) in
  fst (close_round w round_id db) = NoBlockHash
  /\ rounds db' = rounds db
  /\ find_open_round round_id db' = Some r
  /\ participants db'
     = assign_from 1 (firstn 10 (load_participants round_id db))
         (participants db)
  /\ transactions db' = transactions db.
Proof.
  intros Ho Hn Hc Hh db'. unfold db'.
  rewrite (close_round_no_hash w round_id db r Ho Hn Hc Hh).
  cbn [fst snd]. repeat split. exact Ho.
Qed.

Lemma beacon_failure_leaves_round_open_witness :
  fst (close_round Sample.world_down 1 (Sample.db_with 10)) = NoBlockHash
  /\ rounds (snd (close_round Sample.world_down 1 (Sample.db_with 10)))
     = [Sample.open_round].
Proof.
  pose proof (beacon_failure_leaves_round_open Sample.world_down 1
                (Sample.db_with 10) Sample.open_round
                ltac:(reflexivity) ltac:(vm_compute; lia)
                ltac:(reflexivity) ltac:(left; reflexivity)) as (H1 & H2 & _).
  split; [exact H1 | exact H2].
Defined.

(** C8.  Once the closure is committed (the round found open, at least 10
    participants, numbering committed, a beacon value that yields a winner,
    closure committed), a failure of the settlement commit or of the
    successor commit leaves the function as an exception and the closure
    stays: in the database the invocation leaves, whichever of the later
    commits fail, every row of that round id is closed with the winner and
    the [closed_at] written at the commit point, the rounds written then
    are still there, and the round is not open. *)
Theorem closure_survives_later_failures (w : World) (round_id : Z) (db : Db)
  (r : Round.t) (block_hash : string) (winner_idx : Z) (p : Participant.t) :
  find_open_round round_id db = Some r ->
  (10 <= participant_count round_id db)%nat ->
  commit_fails w CommitIndices = false ->
  get_latest_block_hash (http w) = Some block_hash ->
  str_falsy block_hash = false ->
  get_winner_index block_hash 10 = Return (Some winner_idx) ->
  py_getitem (load_participants round_id db) winner_idx = Some p ->
  commit_fails w CommitClosure = false ->
  let a := Participant.btc_address p in
  let db2 := mark_closed round_id (utcnow w ClockClosedAt) a
               (assign_round_indices (load_participants round_id db) db) in
  let o := fst (close_round w round_id db) in
  let db' := snd (close_round w round_id db) in
  (forall r', In r' (rounds db') -> Round.id r' = round_id ->
              Round.status r' = "closed"
              /\ Round.closed_at r' = Some (utcnow w ClockClosedAt)
              /\ Round.winner r' = Some a)
  /\ (exists r', In r' (rounds db') /\ Round.id r' = round_id)
  /\ find_open_round round_id db' = None
  /\ (exists extra, rounds db' = (rounds db2 ++ extra)%list)
  /\ participants db' = participants db2
  /\ (commit_fails w CommitSettlement = true ->
      o = Raised (CommitError CommitSettlement) /\ db' = db2)
  /\ (commit_fails w CommitSettlement = false ->
      commit_fails w CommitNextRound = true ->
      o = Raised (CommitError CommitNextRound)
      /\ rounds db' = rounds db2
      /\ transactions db'
         = (transactions db2 ++ settlement_rows w a db2)%list).
Proof.
  intros Ho Hn Hc Hh Hf Hi Hp Hcc a db2 o db'.
  pose proof (close_round_drawn w round_id db r block_hash winner_idx p
                Ho Hn Hc Hh Hf Hi Hp Hcc) as Hrun.
  cbv zeta in Hrun. fold a db2 in Hrun.
  destruct (find_open_round_Some _ _ _ Ho) as (Hin & Hid & _).
  assert (Hrid : In round_id (map Round.id (rounds db2))).
  { unfold db2. rewrite mark_closed_ids. cbn [assign_round_indices rounds].
    rewrite <- Hid. now apply in_map. }
  assert (Hex : exists extra,
             rounds db' = (rounds db2 ++ extra)%list
             /\ forall r', In r' extra -> Round.id r' <> round_id).
  { unfold db'. rewrite Hrun.
    destruct (commit_fails w CommitSettlement);
      [|destruct (commit_fails w CommitNextRound)]; cbn [snd rounds].
    - exists []. rewrite app_nil_r. split; [reflexivity | intros ? []].
    - exists []. rewrite app_nil_r. split; [reflexivity | intros ? []].
    - eexists. split; [reflexivity|].
      intros r' [<-|[]]. now apply new_round_row_fresh. }
  destruct Hex as (extra & Hrounds & Hextra).
  assert (Hrows : forall r', In r' (rounds db') -> Round.id r' = round_id ->
                    Round.status r' = "closed"
                    /\ Round.closed_at r' = Some (utcnow w ClockClosedAt)
                    /\ Round.winner r' = Some a).
  { intros r' Hr' Hid'. rewrite Hrounds in Hr'.
    apply in_app_or in Hr' as [Hr'|Hr'].
    - exact (mark_closed_rows _ _ _ _ _ Hr' Hid').
    - exfalso. exact (Hextra r' Hr' Hid'). }
  split; [exact Hrows|].
  split.
  { apply in_map_iff in Hrid as (r' & E & Hr'). exists r'. split; [|exact E].
    rewrite Hrounds. apply in_or_app. now left. }
  split; [eapply closed_round_not_open; [exact Hrounds | exact Hextra]|].
  split; [exists extra; exact Hrounds|].
  split.
  { unfold db'. rewrite Hrun.
    destruct (commit_fails w CommitSettlement);
      [|destruct (commit_fails w CommitNextRound)]; reflexivity. }
  split.
  - intros Hs. unfold o, db'. rewrite Hrun, Hs. split; reflexivity.
  - intros Hs Hnx. unfold o, db'. rewrite Hrun, Hs, Hnx. repeat split.
Qed.

Lemma closure_survives_later_failures_witness :
  fst (close_round (Sample.world_settle_fails "1a") 1 (Sample.db_with 10))
  = Raised (CommitError CommitSettlement)
  /\ find_open_round 1
       (snd (close_round (Sample.world_settle_fails "1a") 1 (Sample.db_with 10)))
     = None.
Proof.
  pose proof (closure_survives_later_failures
                (Sample.world_settle_fails "1a") 1 (Sample.db_with 10)
                Sample.open_round "1a" 6 (Sample.participant 4)
                ltac:(reflexivity) ltac:(vm_compute; lia) ltac:(reflexivity)
                ltac:(reflexivity) ltac:(reflexivity) ltac:(reflexivity)
                ltac:(reflexivity) ltac:(reflexivity))
    as (_ & _ & H3 & _ & _ & H6 & _).
  split; [exact (proj1 (H6 eq_refl)) | exact H3].
Defined.

Lemma find_app_skip {A : Type} (f : A -> bool) (l l' : list A) :
  (forall x, In x l -> f x = false) -> find f (l ++ l') = find f l'.
Proof.
  induction l as [|y l IH]; intros H; cbn [app find]; [reflexivity|].
  rewrite (H y (or_introl eq_refl)). apply IH. intros x Hx. apply H. now right.
Qed.

(** C9.  After a closure that ran to the end, the rounds table ends with a
    new row: its id is the one the closure reports and was not in use, its
    status is open, [opened_at] is set, and its deposit address is
    [FIXED_DEPOSIT_ADDRESS]; it is the open round of that id; and if every
    round before the closure had the fixed address, every round after it
    has. *)
Theorem successor_round_fixed_address (w : World) (round_id : Z) (db db' : Db)
  (a : string) (next_id : Z) :
  close_round w round_id db = (Closed a next_id, db') ->
  let successor :=
    Round.mk next_id FIXED_DEPOSIT_ADDRESS "open"
      (Some (utcnow w ClockOpenedAt)) None None in
  (exists before, rounds db' = (before ++ [successor])%list
                  /\ List.length before = List.length (rounds db))
  /\ ~ In next_id (map Round.id (rounds db))
  /\ find_open_round next_id db' = Some successor
  /\ ((forall r, In r (rounds db) ->
                 Round.deposit_address r = FIXED_DEPOSIT_ADDRESS) ->
      forall r, In r (rounds db') ->
                Round.deposit_address r = FIXED_DEPOSIT_ADDRESS).
Proof.
  intros H successor.
  apply close_round_closed_inv in H
    as (r & h & i & p & Ho & Hn & Hh & Hf & Hi & Hp & Ha & Hc & Hid & Hdb).
  cbv zeta in Hid, Hdb.
  set (db1 := assign_round_indices (load_participants round_id db) db) in *.
  set (db2 := mark_closed round_id (utcnow w ClockClosedAt) a db1) in *.
  set (db3 := mkDb (rounds db2) (participants db2)
                (transactions db2 ++ settlement_rows w a db2)) in *.
  assert (Hids : map Round.id (rounds db3) = map Round.id (rounds db))
    by exact (mark_closed_ids round_id (utcnow w ClockClosedAt) a db1).
  assert (Hrow : new_round_row w db3 = successor).
  { unfold successor. rewrite Hid. reflexivity. }
  assert (Hfresh : ~ In next_id (map Round.id (rounds db))).
  { intros Hin. rewrite <- Hids in Hin.
    apply (new_round_row_fresh w db3) in Hin. congruence. }
  assert (Hrounds : rounds db' = (rounds db3 ++ [successor])%list).
  { rewrite Hdb, Hrow. reflexivity. }
  repeat split.
  - exists (rounds db3). split; [exact Hrounds|].
    rewrite <- (length_map Round.id), Hids. apply length_map.
  - exact Hfresh.
  - unfold find_open_round. rewrite Hrounds, find_app_skip.
    + cbn. rewrite Z.eqb_refl. reflexivity.
    + intros x Hx. destruct (Z.eqb_spec (Round.id x) next_id) as [E|_];
        [|reflexivity].
      exfalso. apply Hfresh. rewrite <- Hids, <- E. now apply in_map.
  - intros Hall x Hx. rewrite Hrounds in Hx.
    apply in_app_or in Hx as [Hx|[<-|[]]]; [|reflexivity].
    apply mark_closed_address in Hx as (r0 & Hr0 & ->). now apply Hall.
Qed.

Lemma successor_round_fixed_address_witness :
  find_open_round 2 (snd (close_round (Sample.world "1a") 1 (Sample.db_with 10)))
  = Some (Round.mk 2 FIXED_DEPOSIT_ADDRESS "open"
            (Some (utcnow (Sample.world "1a") ClockOpenedAt)) None None).
Proof.
  exact (proj1 (proj2 (proj2
           (successor_round_fixed_address (Sample.world "1a") 1
              (Sample.db_with 10) _ _ _ ltac:(reflexivity))))).
Defined.

(** ** Settlement *)

(** C5.  The pool is 1.0; the prize is the float 0.99 and the fee the float
    0.01; each is its own rounding to 8 places and holds 99000000 and
    1000000 units of 1e-8, which add up to the 100000000 units of the pool;
    the float sum of the two amounts is the pool; and these are the amounts
    of the two settlement rows. *)
Theorem settlement_amounts_unit_pool :
  TOTAL_AMOUNT = 1%float
  /\ prize_amount = 0.99%float
  /\ admin_fee = 0.01%float
  /\ PyFloat.round prize_amount 8 = prize_amount
  /\ PyFloat.round admin_fee 8 = admin_fee
  /\ PyFloat.units prize_amount 8 = Some 99000000
  /\ PyFloat.units admin_fee 8 = Some 1000000
  /\ PyFloat.units TOTAL_AMOUNT 8 = Some (99000000 + 1000000)
  /\ (prize_amount + admin_fee)%float = TOTAL_AMOUNT
  /\ (forall w a db,
        map Transaction.amount (settlement_rows w a db)
        = [prize_amount; admin_fee]).
Proof.
  repeat split; vm_compute; reflexivity.
Qed.

(** C10.  After a closure that ran to the end the transactions table is the
    earlier one followed by two rows: a pending payout of [prize_amount] to
    the winner and a pending fee of [admin_fee] to [ADMIN_FEE_ADDRESS].  The
    two amounts are constants of the module, [round(1.0 * 0.99, 8)] and
    [round(1.0 * 0.01, 8)] with the pool fixed at [0.1 * 10 = 1.0]: no row of
    the database enters them. *)
Theorem settlement_rows_constant (w : World) (round_id : Z) (db db' : Db)
  (a : string) (next_id : Z) :
  close_round w round_id db = (Closed a next_id, db') ->
  (exists k,
     transactions db'
     = (transactions db
        ++ [ Transaction.mk k None "payout" "pending" prize_amount a
               (utcnow w ClockPrizeTx);
             Transaction.mk (k + 1) None "fee" "pending" admin_fee
               ADMIN_FEE_ADDRESS (utcnow w ClockAdminTx) ])%list)
  /\ TOTAL_AMOUNT = (0.1 * 10)%float
  /\ TOTAL_AMOUNT = 1%float
  /\ prize_amount = PyFloat.round (1 * 0.99)%float 8
  /\ admin_fee = PyFloat.round (1 * 0.01)%float 8.
Proof.
  intros H.
  apply close_round_closed_inv in H
    as (r & h & i & p & _ & _ & _ & _ & _ & _ & _ & _ & _ & Hdb).
  cbv zeta in Hdb. subst db'.
  repeat split; try reflexivity.
  eexists. reflexivity.
Qed.

Lemma settlement_rows_constant_witness :
  prize_amount = PyFloat.round (1 * 0.99)%float 8
  /\ admin_fee = PyFloat.round (1 * 0.01)%float 8.
Proof.
  pose proof (settlement_rows_constant (Sample.world "1a") 1
                (Sample.db_with 10) _ _ _ ltac:(reflexivity))
    as (_ & _ & _ & H1 & H2).
  split; [exact H1 | exact H2].
Defined.

(** ** Two attempts on one round *)

Lemma run_attempt_halted (n : nat) (w : World) (round_id : Z) (o : outcome)
  (db : Db) :
  run_attempt n w round_id (Halted o) db = (Halted o, db).
Proof. induction n as [|n IH]; cbn; [reflexivity | exact IH]. Qed.

Lemma closure_recorded_not_open (round_id : Z) (a : string) (db : Db) :
  closure_recorded round_id a db -> find_open_round round_id db = None.
Proof.
  intros [_ H]. apply find_open_round_None. intros r Hin Hid.
  destruct (H r Hin Hid) as [-> _]. discriminate.
Qed.

(** An attempt that runs alone is [close_round]. *)
Lemma run_attempt_close_round (w : World) (round_id : Z) (db : Db) :
  run_attempt 7 w round_id AtOpenCheck db
  = (Halted (fst (close_round w round_id db)), snd (close_round w round_id db)).
Proof.
  cbn [run_attempt attempt_step]. unfold_session.
  destruct (find_open_round round_id db) as [r|];
    cbn [advance attempt_step fst snd]; [|reflexivity].
  unfold_session.
  destruct (List.length (load_participants round_id db) <? 10)%nat;
    cbn [advance attempt_step fst snd]; [reflexivity|].
  unfold_session.
  destruct (commit_fails w CommitIndices);
    cbn [advance attempt_step fst snd]; [reflexivity|].
  unfold_session.
  destruct (get_latest_block_hash (http w)) as [h|];
    cbn [advance attempt_step fst snd]; [|reflexivity].
  destruct (str_falsy h); cbn [advance attempt_step fst snd]; [reflexivity|].
  unfold_session.
  destruct (get_winner_index h 10) as [[i|]|];
    cbn [advance attempt_step fst snd]; try reflexivity.
  destruct (py_getitem _ i) as [p|];
    cbn [advance attempt_step fst snd]; [|reflexivity].
  destruct (commit_fails w CommitClosure);
    cbn [advance attempt_step fst snd]; [reflexivity|].
  unfold_session.
  destruct (commit_fails w CommitSettlement);
    cbn [advance attempt_step fst snd]; [reflexivity|].
  unfold_session.
  destruct (commit_fails w CommitNextRound); reflexivity.
Qed.

(** The first five steps, when they all succeed, record the closure. *)
Lemma attempt_reaches_settle (w : World) (round_id : Z) (db db2 : Db)
  (a : string) :
  run_attempt 5 w round_id AtOpenCheck db = (AtSettle a, db2) ->
  closure_recorded round_id a db2.
Proof.
  intros H. cbn [run_attempt attempt_step] in H. unfold_session_in H.
  destruct (find_open_round round_id db) as [r|] eqn:Ho; cbn [advance] in H;
    [|discriminate].
  cbn [attempt_step] in H. unfold_session_in H.
  destruct (List.length (load_participants round_id db) <? 10)%nat;
    cbn [advance] in H; [discriminate|].
  cbn [attempt_step] in H. unfold_session_in H.
  destruct (commit_fails w CommitIndices); cbn [advance] in H; [discriminate|].
  cbn [attempt_step] in H. unfold_session_in H.
  destruct (get_latest_block_hash (http w)) as [h|]; cbn [advance] in H;
    [|discriminate].
  destruct (str_falsy h); cbn [advance] in H; [discriminate|].
  cbn [attempt_step] in H. unfold_session_in H.
  destruct (get_winner_index h 10) as [[i|]|]; cbn [advance] in H;
    try discriminate.
  destruct (py_getitem _ i) as [p|]; cbn [advance] in H; [|discriminate].
  destruct (commit_fails w CommitClosure); cbn [advance] in H; [discriminate|].
  injection H as <- <-.
  destruct (find_open_round_Some _ _ _ Ho) as (Hin & Hid & _).
  split.
  - rewrite mark_closed_ids. cbn [assign_round_indices rounds].
    rewrite <- Hid. now apply in_map.
  - intros r' Hr' Hid'.
    destruct (mark_closed_rows _ _ _ _ _ Hr' Hid') as (? & _ & ?). now split.
Qed.

(** After the commit point the steps of an attempt keep the closure. *)
Lemma step_past_commit (w : World) (round_id : Z) (a : string) (p : pc)
  (db : Db) :
  past_commit p = true ->
  closure_recorded round_id a db ->
  past_commit (fst (attempt_step w round_id p db)) = true
  /\ closure_recorded round_id a (snd (attempt_step w round_id p db)).
Proof.
  intros Hp Hrec. destruct p; try discriminate; cbn [attempt_step];
    unfold_session.
  - destruct (commit_fails w CommitSettlement); cbn; [now split|].
    split; [reflexivity | exact Hrec].
  - destruct (commit_fails w CommitNextRound); cbn [advance fst snd];
      [now split|].
    split; [reflexivity|]. destruct Hrec as [Hin Hall].
    split; cbn [rounds].
    + rewrite map_app. apply in_or_app. now left.
    + intros r Hr Hid. apply in_app_or in Hr as [Hr|[<-|[]]].
      * now apply Hall.
      * exfalso. exact (new_round_row_fresh w db round_id Hin Hid).
  - now split.
Qed.

(** An attempt whose open check comes after the commit point ends there
    and writes nothing. *)
Lemma step_late_attempt (w : World) (round_id : Z) (a : string) (p : pc)
  (db : Db) :
  p = AtOpenCheck \/ p = Halted NoOpenRound ->
  closure_recorded round_id a db ->
  attempt_step w round_id p db = (Halted NoOpenRound, db).
Proof.
  intros [->| ->] Hrec; cbn [attempt_step]; [|reflexivity].
  unfold_session. now rewrite (closure_recorded_not_open _ _ _ Hrec).
Qed.

(** A stretch where only the first attempt runs. *)
Lemma race_first_alone (w1 w2 : World) (round_id : Z) (n : nat) :
  forall s,
    race w1 w2 round_id (repeat FirstAttempt n) s
    = mkRace (fst (run_attempt n w1 round_id (first_pc s) (store s)))
        (second_pc s)
        (snd (run_attempt n w1 round_id (first_pc s) (store s))).
Proof.
  unfold race. induction n as [|n IH]; intros [p q db];
    cbn [repeat fold_left run_attempt first_pc second_pc store fst snd];
    [reflexivity|].
  rewrite IH. cbn [race_step first_pc second_pc store].
  now destruct (attempt_step w1 round_id p db) as [p' db'].
Qed.

Lemma race_past_commit (w1 w2 : World) (round_id : Z) (a : string)
  (schedule : list who) :
  forall s,
    past_commit (first_pc s) = true ->
    second_pc s = AtOpenCheck \/ second_pc s = Halted NoOpenRound ->
    closure_recorded round_id a (store s) ->
    let s' := race w1 w2 round_id schedule s in
    (second_pc s' = AtOpenCheck \/ second_pc s' = Halted NoOpenRound)
    /\ (second_pc s = Halted NoOpenRound -> second_pc s' = Halted NoOpenRound)
    /\ (In SecondAttempt schedule -> second_pc s' = Halted NoOpenRound)
    /\ closure_recorded round_id a (store s')
    /\ (first_pc s', store s')
       = run_attempt (List.length (filter is_first schedule)) w1 round_id
           (first_pc s) (store s).
Proof.
  induction schedule as [|t schedule IH]; intros s Hp Hq Hrec; cbn zeta.
  - cbn. refine (conj Hq (conj (fun E => E) (conj _ (conj Hrec eq_refl)))).
    intros [].
  - cbn [race fold_left]. fold (race w1 w2 round_id schedule).
    destruct t; cbn [race_step filter is_first List.length run_attempt].
    + destruct (step_past_commit w1 round_id a _ _ Hp Hrec) as [Hp' Hrec'].
      destruct (attempt_step w1 round_id (first_pc s) (store s)) as [p' db'].
      cbn [fst snd] in Hp', Hrec'.
      destruct (IH (mkRace p' (second_pc s) db') Hp' Hq Hrec')
        as (I1 & I2 & I3 & I4 & I5).
      cbn [first_pc second_pc store] in *.
      refine (conj I1 (conj I2 (conj _ (conj I4 I5)))).
      intros [E|Hin]; [discriminate | now apply I3].
    + rewrite (step_late_attempt w2 round_id a _ _ Hq Hrec).
      destruct (IH (mkRace (first_pc s) (Halted NoOpenRound) (store s))
                  Hp (or_intror eq_refl) Hrec)
        as (I1 & I2 & I3 & I4 & I5).
      cbn [first_pc second_pc store] in *.
      refine (conj I1 (conj (fun _ => I2 eq_refl)
                (conj (fun _ => I2 eq_refl) (conj I4 I5)))).
Qed.

(** C2, as the code has it.  Once one attempt has committed the closure of
    a round (its first five steps ran and left it before the settlement
    with winner [a]), an attempt on the same round that has not yet made
    its open check, stepped in any order with the rest of the first, ends
    on the no-open-round path (RoundNotOpen) as soon as it runs, and writes
    nothing: the database is the one the first attempt alone produces, the
    round is not open, and every row of its id is closed with the winner of
    the first attempt. *)
Theorem late_attempt_finds_round_closed (w1 w2 : World) (round_id : Z)
  (db : Db) (a : string) (schedule : list who) :
  let s1 := race w1 w2 round_id (repeat FirstAttempt 5) (race_start db) in
  first_pc s1 = AtSettle a ->
  let s := race w1 w2 round_id schedule s1 in
  second_pc s1 = AtOpenCheck
  /\ (In SecondAttempt schedule -> second_pc s = Halted NoOpenRound)
  /\ (second_pc s = AtOpenCheck \/ second_pc s = Halted NoOpenRound)
  /\ (first_pc s, store s)
     = run_attempt (List.length (filter is_first schedule)) w1 round_id
         (first_pc s1) (store s1)
  /\ find_open_round round_id (store s) = None
  /\ (forall r, In r (rounds (store s)) -> Round.id r = round_id ->
                Round.status r = "closed" /\ Round.winner r = Some a).
Proof.
  intros s1 Hs1 s.
  assert (Hrun : (first_pc s1, store s1)
                 = run_attempt 5 w1 round_id AtOpenCheck db
                 /\ second_pc s1 = AtOpenCheck).
  { unfold s1. rewrite race_first_alone.
    cbn [race_start first_pc second_pc store].
    now destruct (run_attempt 5 w1 round_id AtOpenCheck db). }
  destruct Hrun as [Hrun Hsecond].
  assert (Hrec : closure_recorded round_id a (store s1)).
  { apply (attempt_reaches_settle w1 round_id db). rewrite <- Hrun, Hs1.
    reflexivity. }
  assert (Hp : past_commit (first_pc s1) = true) by now rewrite Hs1.
  destruct (race_past_commit w1 w2 round_id a schedule s1 Hp
              (or_introl Hsecond) Hrec) as (I1 & _ & I3 & I4 & I5).
  fold s in I1, I3, I4, I5.
  refine (conj Hsecond (conj I3 (conj I1 (conj I5 (conj _ (proj2 I4)))))).
  now apply closure_recorded_not_open with (a := a).
Qed.

Lemma late_attempt_finds_round_closed_witness :
  second_pc
    (race (Sample.world "1a") (Sample.world "1b") 1
       [SecondAttempt; FirstAttempt; SecondAttempt; FirstAttempt]
       (race (Sample.world "1a") (Sample.world "1b") 1
          (repeat FirstAttempt 5) (race_start (Sample.db_with 10))))
  = Halted NoOpenRound.
Proof.
  exact (proj1 (proj2
           (late_attempt_finds_round_closed (Sample.world "1a")
              (Sample.world "1b") 1 (Sample.db_with 10) "d"
              [SecondAttempt; FirstAttempt; SecondAttempt; FirstAttempt]
              ltac:(reflexivity)))
           ltac:(simpl; tauto)).
Defined.

(** C2, as the specification words it, fails.  Two attempts on round 1 of
    the sample database that both make the open check before either
    commits both run to the end: each reports a closure, with different
    winners; the round carries the winner of the second; four settlement
    rows and two successor rounds are written. *)
Lemma overlapping_attempts_both_close :
  first_pc Sample.overlap_end = Halted (Closed "d" 2)
  /\ second_pc Sample.overlap_end = Halted (Closed "c" 3)
  /\ map Round.winner (rounds (store Sample.overlap_end))
     = [Some "c"; None; None]
  /\ List.length (transactions (store Sample.overlap_end)) = 4%nat
  /\ second_pc Sample.overlap_end <> Halted NoOpenRound.
Proof.
  repeat split; try reflexivity. vm_compute. discriminate.
Qed.

(** Two invocations one after the other: the second finds the round
    closed. *)
Lemma close_round_twice (w1 w2 : World) (round_id : Z) (db db1 : Db)
  (a : string) (next_id : Z) :
  close_round w1 round_id db = (Closed a next_id, db1) ->
  close_round w2 round_id db1 = (NoOpenRound, db1).
Proof.
  intros H. apply close_round_not_open.
  apply close_round_closed_inv in H
    as (r & h & i & p & Ho & _ & _ & _ & _ & _ & _ & _ & Hid & Hdb).
  cbv zeta in Hid, Hdb.
  destruct (find_open_round_Some _ _ _ Ho) as (Hin & Hr & _).
  eapply closed_round_not_open.
  - rewrite Hdb. cbn [rounds]. reflexivity.
  - intros r' [<-|[]]. apply new_round_row_fresh. cbn [rounds].
    rewrite mark_closed_ids. cbn [assign_round_indices rounds].
    rewrite <- Hr. now apply in_map.
Qed.


(** * Further properties of the code *)

(** ** The draw among ten *)

Lemma get_winner_index_ten (h : string) :
  str_falsy h = false ->
  get_winner_index h 10 = Raise ValueError /\ PyInt.int16 h = None
  \/ exists H, PyInt.int16 h = Some H
               /\ get_winner_index h 10 = Return (Some (H mod 10))
               /\ 0 <= H mod 10 < 10.
Proof.
  intros Hh. unfold get_winner_index. rewrite Hh. cbn [orb Z.eqb].
  destruct (PyInt.int16 h) as [H|]; [right | left; now split].
  exists H. repeat split; apply Z.mod_pos_bound; lia.
Qed.

Lemma py_getitem_inbounds {A : Type} (l : list A) (i : Z) :
  0 <= i < Z.of_nat (List.length l) ->
  exists x, py_getitem l i = Some x /\ nth_error l (Z.to_nat i) = Some x.
Proof.
  intros Hi. unfold py_getitem.
  destruct (Z.leb_spec 0 i); [|lia].
  destruct (nth_error l (Z.to_nat i)) as [x|] eqn:E; [now exists x|].
  apply nth_error_None in E. lia.
Qed.

Lemma py_getitem_nonneg {A : Type} (l : list A) (i : Z) (x : A) :
  0 <= i -> py_getitem l i = Some x -> nth_error l (Z.to_nat i) = Some x.
Proof.
  intros Hi. unfold py_getitem. destruct (Z.leb_spec 0 i); [trivial | lia].
Qed.

(** X1.  The draw never fails on the index.  With the database reads
    succeeding, [close_round] never ends in the [TypeError] or the
    [IndexError] of [participants[winner_idx]] (lines 121-122); and for
    every list of at least ten participants and every non-empty block hash
    the draw of lines 121-129 either raises the [ValueError] of
    [int(block_hash, 16)], the hash not being a hexadecimal number, or
    takes an index in [0, 10) that names an element of the list, and then
    ends on a failed closure commit or yields that participant's
    address. *)
Theorem draw_index_in_range (w : World) (round_id : Z) (db : Db) :
  fst (close_round w round_id db) <> Raised IndexError
  /\ fst (close_round w round_id db) <> Raised TypeError
  /\ forall ps block_hash,
       (10 <= List.length ps)%nat ->
       str_falsy block_hash = false ->
       (PyInt.int16 block_hash = None
        /\ fst (draw_step w round_id ps block_hash db) = Stop (Raised ValueError))
       \/ exists H p,
            PyInt.int16 block_hash = Some H
            /\ 0 <= H mod 10 < 10
            /\ nth_error ps (Z.to_nat (H mod 10)) = Some p
            /\ (fst (draw_step w round_id ps block_hash db)
                = Stop (Raised (CommitError CommitClosure))
                \/ fst (draw_step w round_id ps block_hash db)
                   = Next (Participant.btc_address p)).
Proof.
  assert (Hdraw : forall ps block_hash,
             (10 <= List.length ps)%nat ->
             str_falsy block_hash = false ->
             (PyInt.int16 block_hash = None
              /\ fst (draw_step w round_id ps block_hash db)
                 = Stop (Raised ValueError))
             \/ exists H p,
                  PyInt.int16 block_hash = Some H
                  /\ 0 <= H mod 10 < 10
                  /\ nth_error ps (Z.to_nat (H mod 10)) = Some p
                  /\ (fst (draw_step w round_id ps block_hash db)
                      = Stop (Raised (CommitError CommitClosure))
                      \/ fst (draw_step w round_id ps block_hash db)
                         = Next (Participant.btc_address p))).
  { intros ps h Hlen Hf. unfold draw_step.
    destruct (get_winner_index_ten h Hf) as [[-> Hnone]|(H & HH & -> & Hr)].
    - left. now split.
    - right. destruct (py_getitem_inbounds ps (H mod 10)) as (p & -> & Hp);
        [lia|].
      exists H, p. repeat split; try assumption; try lia.
      unfold commit_writes, bind, ret.
      destruct (commit_fails w CommitClosure); [now left | now right]. }
  split; [|split; [|exact Hdraw]].
  - unfold_session.
    destruct (find_open_round round_id db) as [r|]; [|discriminate].
    cbn beta iota.
    destruct (Nat.ltb_spec (List.length (load_participants round_id db)) 10)
      as [|Hlen]; [discriminate|].
    destruct (commit_fails w CommitIndices); [discriminate|].
    destruct (get_latest_block_hash (http w)) as [h|]; [|discriminate].
    destruct (str_falsy h) eqn:Hf; [discriminate|].
    destruct (get_winner_index_ten h Hf) as [[-> _]|(H & _ & -> & Hr)];
      [discriminate|].
    destruct (py_getitem_inbounds (load_participants round_id db) (H mod 10))
      as (p & -> & _); [lia|].
    destruct (commit_fails w CommitClosure); [discriminate|].
    destruct (commit_fails w CommitSettlement); [discriminate|].
    destruct (commit_fails w CommitNextRound); discriminate.
  - unfold_session.
    destruct (find_open_round round_id db) as [r|]; [|discriminate].
    cbn beta iota.
    destruct (Nat.ltb_spec (List.length (load_participants round_id db)) 10)
      as [|Hlen]; [discriminate|].
    destruct (commit_fails w CommitIndices); [discriminate|].
    destruct (get_latest_block_hash (http w)) as [h|]; [|discriminate].
    destruct (str_falsy h) eqn:Hf; [discriminate|].
    destruct (get_winner_index_ten h Hf) as [[-> _]|(H & _ & -> & Hr)];
      [discriminate|].
    destruct (py_getitem_inbounds (load_participants round_id db) (H mod 10))
      as (p & -> & _); [lia|].
    destruct (commit_fails w CommitClosure); [discriminate|].
    destruct (commit_fails w CommitSettlement); [discriminate|].
    destruct (commit_fails w CommitNextRound); discriminate.
Qed.

Lemma draw_index_in_range_witness :
  (PyInt.int16 "ff" = None
   /\ fst (draw_step (Sample.world "ff") 1
             (load_participants 1 (Sample.db_with 11)) "ff"
             (Sample.db_with 11))
      = Stop (Raised ValueError))
  \/ exists H p,
       PyInt.int16 "ff" = Some H
       /\ 0 <= H mod 10 < 10
       /\ nth_error (load_participants 1 (Sample.db_with 11))
            (Z.to_nat (H mod 10)) = Some p
       /\ (fst (draw_step (Sample.world "ff") 1
                  (load_participants 1 (Sample.db_with 11)) "ff"
                  (Sample.db_with 11))
           = Stop (Raised (CommitError CommitClosure))
           \/ fst (draw_step (Sample.world "ff") 1
                     (load_participants 1 (Sample.db_with 11)) "ff"
                     (Sample.db_with 11))
              = Next (Participant.btc_address p)).
Proof.
  exact (proj2 (proj2 (draw_index_in_range (Sample.world "ff") 1
                         (Sample.db_with 11)))
           (load_participants 1 (Sample.db_with 11)) "ff"
           ltac:(vm_compute; lia) ltac:(reflexivity)).
Defined.

(** X2.  The winner of a closure is one of the first ten participants of
    the round in order of arrival: the one at position [H mod 10] for the
    beacon value [H].  A participant after the tenth is never drawn, and
    the address recorded on the round is that participant's. *)
Theorem winner_is_among_first_ten (w : World) (round_id : Z) (db db' : Db)
  (a : string) (next_id : Z) :
  close_round w round_id db = (Closed a next_id, db') ->
  exists h H p,
    get_latest_block_hash (http w) = Some h
    /\ PyInt.int16 h = Some H
    /\ nth_error (firstn 10 (load_participants round_id db))
         (Z.to_nat (H mod 10)) = Some p
    /\ In p (participants db)
    /\ Participant.round_id p = round_id
    /\ a = Participant.btc_address p
    /\ (forall r, In r (rounds db') -> Round.id r = round_id ->
                  Round.winner r = Some (Participant.btc_address p)).
Proof.
  intros Hcr.
  destruct (close_round_closed_inv _ _ _ _ _ _ Hcr)
    as (r & h & i & p & Ho & Hn & Hh & Hf & Hi & Hp & Ha & Hc & Hid & Hdb).
  cbv zeta in Hid, Hdb.
  destruct (get_winner_index_ten h Hf) as [[E _]|(H & HH & E & Hr)];
    [congruence|].
  assert (i = H mod 10) by congruence. subst i.
  apply py_getitem_nonneg in Hp; [|lia].
  exists h, H, p. repeat split; try assumption.
  - rewrite nth_error_firstn.
    destruct (Nat.ltb_spec (Z.to_nat (H mod 10)) 10); [exact Hp | lia].
  - apply nth_error_In in Hp. now apply load_participants_In in Hp.
  - apply nth_error_In in Hp. now apply load_participants_In in Hp.
  - intros r' Hr' Hid'. rewrite Hdb in Hr'. cbn [rounds] in Hr'.
    apply in_app_or in Hr' as [Hr'|[<-|[]]].
    + rewrite <- Ha. now destruct (mark_closed_rows _ _ _ _ _ Hr' Hid') as (_ & _ & ?).
    + exfalso. revert Hid'. apply new_round_row_fresh. cbn [rounds].
      rewrite mark_closed_ids. cbn [assign_round_indices rounds].
      destruct (find_open_round_Some _ _ _ Ho) as (Hin & <- & _).
      now apply in_map.
Qed.

Lemma winner_is_among_first_ten_witness :
  exists h H p,
    get_latest_block_hash (http (Sample.world "1a")) = Some h
    /\ PyInt.int16 h = Some H
    /\ nth_error (firstn 10 (load_participants 1 (Sample.db_with 11)))
         (Z.to_nat (H mod 10)) = Some p
    /\ In p (participants (Sample.db_with 11))
    /\ Participant.round_id p = 1
    /\ "e" = Participant.btc_address p
    /\ (forall r,
          In r (rounds (snd (close_round (Sample.world "1a") 1
                               (Sample.db_with 11)))) ->
          Round.id r = 1 ->
          Round.winner r = Some (Participant.btc_address p)).
Proof.
  exact (winner_is_among_first_ten (Sample.world "1a") 1 (Sample.db_with 11)
           _ "e" 2 ltac:(reflexivity)).
Defined.

Lemma close_round_bad_hash (w : World) (round_id : Z) (db : Db) (r : Round.t)
  (h : string) :
  find_open_round round_id db = Some r ->
  (10 <= participant_count round_id db)%nat ->
  commit_fails w CommitIndices = false ->
  get_latest_block_hash (http w) = Some h ->
  str_falsy h = false ->
  PyInt.int16 h = None ->
  close_round w round_id db
  = (Raised ValueError,
     assign_round_indices (load_participants round_id db) db).
Proof.
  intros Ho Hn Hc Hh Hf Hi. unfold_session. rewrite Ho, count_ltb.
  destruct (Nat.ltb_spec (participant_count round_id db) 10); [lia|].
  rewrite Hc, Hh, Hf. unfold get_winner_index. rewrite Hf, Hi. reflexivity.
Qed.

(** X3.  When the beacon answers 200 with a non-empty body that is not a
    hexadecimal number (an error page, say), [close_round] raises
    [ValueError] after the numbering is committed: the round is still the
    open round it was, the participants are numbered, and no transaction
    and no round is written. *)
Theorem unparseable_beacon_raises (w : World) (round_id : Z) (db : Db)
  (r : Round.t) (h : string) :
  find_open_round round_id db = Some r ->
  (10 <= participant_count round_id db)%nat ->
  commit_fails w CommitIndices = false ->
  get_latest_block_hash (http w) = Some h ->
  str_falsy h = false ->
  PyInt.int16 h = None ->
  fst (close_round w round_id db) = Raised ValueError
  /\ rounds (snd (close_round w round_id db)) = rounds db
  /\ find_open_round round_id (snd (close_round w round_id db)) = Some r
  /\ participants (snd (close_round w round_id db))
     = assign_from 1 (firstn 10 (load_participants round_id db))
         (participants db)
  /\ transactions (snd (close_round w round_id db)) = transactions db.
Proof.
  intros Ho Hn Hc Hh Hf Hi.
  rewrite (close_round_bad_hash w round_id db r h Ho Hn Hc Hh Hf Hi).
  cbn [fst snd]. repeat split. exact Ho.
Qed.

Lemma unparseable_beacon_raises_witness :
  fst (close_round (Sample.world "<html>") 1 (Sample.db_with 10))
  = Raised ValueError
  /\ rounds (snd (close_round (Sample.world "<html>") 1 (Sample.db_with 10)))
     = [Sample.open_round].
Proof.
  pose proof (unparseable_beacon_raises (Sample.world "<html>") 1
                (Sample.db_with 10) Sample.open_round "<html>"
                ltac:(reflexivity) ltac:(vm_compute; lia) ltac:(reflexivity)
                ltac:(reflexivity) ltac:(reflexivity) ltac:(reflexivity))
    as (H1 & H2 & _).
  split; [exact H1 | exact H2].
Defined.

Lemma py_getitem_of_nat {A : Type} (l : list A) (i : nat) :
  py_getitem l (Z.of_nat i) = nth_error l i.
Proof.
  unfold py_getitem. destruct (Z.leb_spec 0 (Z.of_nat i)); [|lia].
  now rewrite Nat2Z.id.
Qed.

Lemma single_digit_draw (i : nat) :
  (i < 10)%nat ->
  let h := String (ascii_of_nat (48 + i)) EmptyString in
  str_falsy h = false
  /\ get_winner_index h 10 = Return (Some (Z.of_nat i)).
Proof.
  intros Hi. do 10 (destruct i as [|i]; [split; reflexivity|]). lia.
Qed.

(** X4.  Each of the first ten participants of a closeable round can be
    drawn: for the participant at position [i < 10] in order of arrival
    there is a beacon value, the one-digit body [i], under which
    [close_round] closes the round with that participant's address as
    winner. *)
Theorem every_first_ten_can_win (round_id : Z) (db : Db) (r : Round.t)
  (i : nat) (p : Participant.t) (clock : clock_site -> Z) :
  find_open_round round_id db = Some r ->
  (i < 10)%nat ->
  nth_error (load_participants round_id db) i = Some p ->
  (10 <= participant_count round_id db)%nat ->
  let w := mkWorld (HttpResponse 200 (String (ascii_of_nat (48 + i)) EmptyString))
             (fun _ => false) clock in
  exists next_id,
    fst (close_round w round_id db) = Closed (Participant.btc_address p) next_id
    /\ forall r', In r' (rounds (snd (close_round w round_id db))) ->
                  Round.id r' = round_id ->
                  Round.winner r' = Some (Participant.btc_address p).
Proof.
  intros Ho Hi Hp Hn w.
  destruct (single_digit_draw i Hi) as [Hf Hd]. cbv zeta in Hf, Hd.
  assert (Hh : get_latest_block_hash (http w)
               = Some (String (ascii_of_nat (48 + i)) EmptyString)).
  { cbn [w http get_latest_block_hash Z.eqb Pos.eqb].
    f_equal. revert Hi. clear.
    intros Hi. do 10 (destruct i as [|i]; [reflexivity|]). lia. }
  pose proof (close_round_drawn w round_id db r _ (Z.of_nat i) p Ho Hn
                eq_refl Hh Hf Hd
                (eq_trans (py_getitem_of_nat _ i) Hp) eq_refl) as Hrun.
  cbv zeta in Hrun. cbn [w commit_fails] in Hrun. fold w in Hrun.
  rewrite Hrun. cbn [fst snd rounds].
  eexists. split; [reflexivity|].
  intros r' Hr' Hid'. apply in_app_or in Hr' as [Hr'|[<-|[]]].
  - now destruct (mark_closed_rows _ _ _ _ _ Hr' Hid') as (_ & _ & ?).
  - exfalso. revert Hid'. apply new_round_row_fresh. cbn [rounds].
    rewrite mark_closed_ids. cbn [assign_round_indices rounds].
    destruct (find_open_round_Some _ _ _ Ho) as (Hin & <- & _).
    now apply in_map.
Qed.

Lemma every_first_ten_can_win_witness :
  exists next_id,
    fst (close_round (mkWorld (HttpResponse 200 "9") (fun _ => false)
                        Sample.clock) 1 (Sample.db_with 11))
    = Closed "b" next_id
    /\ forall r',
         In r' (rounds (snd (close_round
                               (mkWorld (HttpResponse 200 "9")
                                  (fun _ => false) Sample.clock)
                               1 (Sample.db_with 11)))) ->
         Round.id r' = 1 -> Round.winner r' = Some "b".
Proof.
  exact (every_first_ten_can_win 1 (Sample.db_with 11) Sample.open_round 9
           (Sample.participant 2) Sample.clock
           ltac:(reflexivity) ltac:(lia) ltac:(reflexivity)
           ltac:(vm_compute; lia)).
Defined.

(** ** Paths that write nothing, and retries *)

Lemma find_open_round_None_inv (round_id : Z) (db : Db) :
  find_open_round round_id db = None ->
  forall r, In r (rounds db) -> Round.id r = round_id ->
            Round.status r <> "open".
Proof.
  intros H r Hin Hid Hst.
  pose proof (find_none _ _ H r Hin) as Hb. cbn beta in Hb.
  rewrite Hid, Z.eqb_refl, Hst in Hb. discriminate Hb.
Qed.

Lemma close_round_no_open_inv (w : World) (round_id : Z) (db : Db) :
  fst (close_round w round_id db) = NoOpenRound ->
  find_open_round round_id db = None.
Proof.
  unfold_session.
  destruct (find_open_round round_id db) as [r|]; [|reflexivity].
  cbn beta iota.
  destruct (List.length (load_participants round_id db) <? 10)%nat;
    [discriminate|].
  destruct (commit_fails w CommitIndices); [discriminate|].
  destruct (get_latest_block_hash (http w)) as [h|]; [|discriminate].
  destruct (str_falsy h); [discriminate|].
  destruct (get_winner_index h 10) as [[i|]|]; try discriminate.
  destruct (py_getitem _ i); [|discriminate].
  destruct (commit_fails w CommitClosure); [discriminate|].
  destruct (commit_fails w CommitSettlement); [discriminate|].
  destruct (commit_fails w CommitNextRound); discriminate.
Qed.

(** X5.  [close_round] ends on the no-open-round path exactly when no row
    of the rounds table has the given id together with the status
    ["open"]: the id is unknown, or the round is closed or in any other
    status.  On that path nothing is written. *)
Theorem no_open_round_exactly (w : World) (round_id : Z) (db : Db) :
  (fst (close_round w round_id db) = NoOpenRound
   <-> forall r, In r (rounds db) -> Round.id r = round_id ->
                 Round.status r <> "open")
  /\ (fst (close_round w round_id db) = NoOpenRound ->
      snd (close_round w round_id db) = db).
Proof.
  split; [split|].
  - intros H. apply find_open_round_None_inv.
    now apply close_round_no_open_inv with (w := w).
  - intros H. apply find_open_round_None in H.
    now rewrite (close_round_not_open w round_id db H).
  - intros H. apply close_round_no_open_inv in H.
    now rewrite (close_round_not_open w round_id db H).
Qed.

Lemma no_open_round_exactly_witness :
  snd (close_round (Sample.world "1a") 2 (Sample.db_with 10))
  = Sample.db_with 10.
Proof.
  apply (proj2 (no_open_round_exactly (Sample.world "1a") 2
                  (Sample.db_with 10))).
  reflexivity.
Defined.

(** An invocation that got past the commit of the closure went through
    the draw. *)
Lemma close_round_reached_commit (w : World) (round_id : Z) (db : Db) :
  (exists a n, fst (close_round w round_id db) = Closed a n)
  \/ fst (close_round w round_id db) = Raised (CommitError CommitSettlement)
  \/ fst (close_round w round_id db) = Raised (CommitError CommitNextRound) ->
  exists r h i p,
    find_open_round round_id db = Some r
    /\ (10 <= participant_count round_id db)%nat
    /\ commit_fails w CommitIndices = false
    /\ get_latest_block_hash (http w) = Some h
    /\ str_falsy h = false
    /\ get_winner_index h 10 = Return (Some i)
    /\ py_getitem (load_participants round_id db) i = Some p
    /\ commit_fails w CommitClosure = false.
Proof.
  unfold_session.
  destruct (find_open_round round_id db) as [r|] eqn:Ho.
  2:{ intros [(a & n & E)|[E|E]]; discriminate. }
  cbn beta iota. rewrite count_ltb.
  destruct (Nat.ltb_spec (participant_count round_id db) 10).
  { intros [(a & n & E)|[E|E]]; discriminate. }
  destruct (commit_fails w CommitIndices) eqn:C1.
  { intros [(a & n & E)|[E|E]]; discriminate. }
  destruct (get_latest_block_hash (http w)) as [h|] eqn:Hh.
  2:{ intros [(a & n & E)|[E|E]]; discriminate. }
  destruct (str_falsy h) eqn:Hf.
  { intros [(a & n & E)|[E|E]]; discriminate. }
  destruct (get_winner_index_ten h Hf) as [[Hi _]|(H' & _ & Hi & _)];
    rewrite Hi.
  { intros [(a & n & E)|[E|E]]; discriminate. }
  destruct (py_getitem _ (H' mod 10)) as [p|] eqn:Hp.
  2:{ intros [(a & n & E)|[E|E]]; discriminate. }
  destruct (commit_fails w CommitClosure) eqn:C2.
  { intros [(a & n & E)|[E|E]]; discriminate. }
  intros _. exists r, h, (H' mod 10), p. repeat split; assumption.
Qed.

(** X6.  An invocation that committed the closure and then stopped, at
    the end or on a failed settlement or successor commit, is not resumed
    by calling [close_round] again: the second call, in any world, ends on
    the no-open-round path and writes nothing.  A settlement whose commit
    failed is therefore not recorded by a retry. *)
Theorem committed_closure_is_not_retried (w1 w2 : World) (round_id : Z)
  (db : Db) :
  (exists a n, fst (close_round w1 round_id db) = Closed a n)
  \/ fst (close_round w1 round_id db) = Raised (CommitError CommitSettlement)
  \/ fst (close_round w1 round_id db) = Raised (CommitError CommitNextRound) ->
  close_round w2 round_id (snd (close_round w1 round_id db))
  = (NoOpenRound, snd (close_round w1 round_id db))
  /\ (fst (close_round w1 round_id db) = Raised (CommitError CommitSettlement) ->
      transactions (snd (close_round w2 round_id (snd (close_round w1 round_id db))))
      = transactions db).
Proof.
  intros H.
  destruct (close_round_reached_commit w1 round_id db H)
    as (r & h & i & p & Ho & Hn & Hc & Hh & Hf & Hi & Hp & Hcc).
  pose proof (close_round_drawn w1 round_id db r h i p Ho Hn Hc Hh Hf Hi Hp Hcc)
    as Hrun.
  cbv zeta in Hrun.
  destruct (find_open_round_Some _ _ _ Ho) as (Hin & Hid & _).
  assert (Hclosed : find_open_round round_id (snd (close_round w1 round_id db))
                    = None).
  { rewrite Hrun.
    destruct (commit_fails w1 CommitSettlement);
      [|destruct (commit_fails w1 CommitNextRound)]; cbn [snd].
    - eapply closed_round_not_open with (extra := []);
        [now rewrite app_nil_r | intros ? []].
    - eapply closed_round_not_open with (extra := []);
        [cbn [rounds]; now rewrite app_nil_r | intros ? []].
    - eapply closed_round_not_open; [cbn [rounds]; reflexivity|].
      intros r' [<-|[]]. apply new_round_row_fresh. cbn [rounds].
      rewrite mark_closed_ids. cbn [assign_round_indices rounds].
      rewrite <- Hid. now apply in_map. }
  rewrite (close_round_not_open w2 round_id _ Hclosed).
  split; [reflexivity|].
  intros Hs. cbn [snd]. rewrite Hrun in Hs |- *.
  destruct (commit_fails w1 CommitSettlement); [reflexivity|].
  destruct (commit_fails w1 CommitNextRound); discriminate Hs.
Qed.

Lemma committed_closure_is_not_retried_witness :
  close_round (Sample.world "1b") 1
    (snd (close_round (Sample.world_settle_fails "1a") 1 (Sample.db_with 10)))
  = (NoOpenRound,
     snd (close_round (Sample.world_settle_fails "1a") 1 (Sample.db_with 10))).
Proof.
  exact (proj1 (committed_closure_is_not_retried
                  (Sample.world_settle_fails "1a") (Sample.world "1b") 1
                  (Sample.db_with 10)
                  ltac:(right; left; reflexivity))).
Defined.

Lemma close_round_commit_closure_fails (w : World) (round_id : Z) (db : Db)
  (r : Round.t) (h : string) (i : Z) (p : Participant.t) :
  find_open_round round_id db = Some r ->
  (10 <= participant_count round_id db)%nat ->
  commit_fails w CommitIndices = false ->
  get_latest_block_hash (http w) = Some h ->
  str_falsy h = false ->
  get_winner_index h 10 = Return (Some i) ->
  py_getitem (load_participants round_id db) i = Some p ->
  commit_fails w CommitClosure = true ->
  close_round w round_id db
  = (Raised (CommitError CommitClosure),
     assign_round_indices (load_participants round_id db) db).
Proof.
  intros Ho Hn Hc Hh Hf Hi Hp Hcc. unfold_session. rewrite Ho, count_ltb.
  destruct (Nat.ltb_spec (participant_count round_id db) 10); [lia|].
  rewrite Hc, Hh, Hf, Hi, Hp, Hcc. reflexivity.
Qed.

Lemma py_getitem_map {A B : Type} (f : A -> B) (l : list A) (i : Z) :
  py_getitem (map f l) i = option_map f (py_getitem l i).
Proof.
  unfold py_getitem. rewrite length_map.
  destruct (0 <=? i); [apply nth_error_map|].
  destruct (0 <=? Z.of_nat (List.length l) + i);
    [apply nth_error_map | reflexivity].
Qed.

(** From the numbered database the model's [close_round] ends as from
    the original one. *)
Lemma close_round_from_numbered (w : World) (round_id : Z) (db : Db)
  (r : Round.t) :
  NoDup (map Participant.id (participants db)) ->
  find_open_round round_id db = Some r ->
  (10 <= participant_count round_id db)%nat ->
  let db1 := assign_round_indices (load_participants round_id db) db in
  fst (close_round w round_id db1) = fst (close_round w round_id db)
  /\ (commit_fails w CommitIndices = false ->
      close_round w round_id db1 = close_round w round_id db)
  /\ (commit_fails w CommitIndices = true ->
      snd (close_round w round_id db1) = db1).
Proof.
  intros Hnd Ho Hn db1.
  destruct (load_participants_indexed round_id db Hnd) as [_ Hps].
  fold db1 in Hps.
  set (ps := load_participants round_id db) in *.
  set (g := indexed_row 1 (firstn 10 ps)) in *.
  pose proof (assign_round_indices_idem round_id db Hnd) as Hidem.
  cbv zeta in Hidem. fold ps db1 in Hidem.
  assert (Ho1 : find_open_round round_id db1 = Some r) by exact Ho.
  assert (Hn1 : (10 <= participant_count round_id db1)%nat).
  { rewrite <- load_participants_length, Hps, length_map.
    unfold ps. now rewrite load_participants_length. }
  destruct (commit_fails w CommitIndices) eqn:Hc.
  { rewrite (close_round_commit_indices_fails w round_id db1 r Ho1 Hn1 Hc).
    rewrite (close_round_commit_indices_fails w round_id db r Ho Hn Hc).
    repeat split. discriminate. }
  assert (Hgoal : close_round w round_id db1 = close_round w round_id db);
    [|rewrite Hgoal; repeat split; discriminate].
  destruct (get_latest_block_hash (http w)) as [h|] eqn:Hh.
  2:{ rewrite (close_round_no_hash w round_id db1 r Ho1 Hn1 Hc (or_introl Hh)).
      rewrite (close_round_no_hash w round_id db r Ho Hn Hc (or_introl Hh)).
      fold ps db1. now rewrite Hidem. }
  destruct (str_falsy h) eqn:Hf.
  { destruct h; [|discriminate].
    rewrite (close_round_no_hash w round_id db1 r Ho1 Hn1 Hc (or_intror Hh)).
    rewrite (close_round_no_hash w round_id db r Ho Hn Hc (or_intror Hh)).
    fold ps db1. now rewrite Hidem. }
  destruct (get_winner_index_ten h Hf) as [[_ Hi]|(H & _ & Hi & Hr)].
  { rewrite (close_round_bad_hash w round_id db1 r h Ho1 Hn1 Hc Hh Hf Hi).
    rewrite (close_round_bad_hash w round_id db r h Ho Hn Hc Hh Hf Hi).
    fold ps db1. now rewrite Hidem. }
  destruct (py_getitem_inbounds ps (H mod 10)) as (p & Hp & _).
  { unfold ps. rewrite load_participants_length. lia. }
  assert (Hp1 : py_getitem (load_participants round_id db1) (H mod 10)
                = Some (g p)).
  { rewrite Hps, py_getitem_map, Hp. reflexivity. }
  assert (Ha : Participant.btc_address (g p) = Participant.btc_address p)
    by apply indexed_row_keeps.
  destruct (commit_fails w CommitClosure) eqn:Hcc.
  { rewrite (close_round_commit_closure_fails w round_id db1 r h _ _
               Ho1 Hn1 Hc Hh Hf Hi Hp1 Hcc).
    rewrite (close_round_commit_closure_fails w round_id db r h _ _
               Ho Hn Hc Hh Hf Hi Hp Hcc).
    fold ps db1. now rewrite Hidem. }
  rewrite (close_round_drawn w round_id db1 r h _ _
             Ho1 Hn1 Hc Hh Hf Hi Hp1 Hcc).
  rewrite (close_round_drawn w round_id db r h _ _
             Ho Hn Hc Hh Hf Hi Hp Hcc).
  fold ps db1. rewrite Hidem, Ha. reflexivity.
Qed.

(** X7.  A retry after an invocation that stopped once the numbering was
    committed (beacon down, body not hexadecimal, closure commit failed)
    behaves as a first attempt, when no two participants of the round
    arrived at the same time (and primary keys are distinct): the query of
    line 104 then has one answer on the original database and one on the
    numbered one, whatever order the engine gives to equal keys, and from
    the numbered database [close_round] ends the same way as from the
    original one, in every world, and leaves the same database whenever
    its own numbering commit succeeds. *)
Theorem retry_after_numbering (w : World) (round_id : Z) (db : Db)
  (r : Round.t) :
  NoDup (map Participant.id (participants db)) ->
  distinct_arrivals round_id db ->
  find_open_round round_id db = Some r ->
  (10 <= participant_count round_id db)%nat ->
  let db1 := assign_round_indices (load_participants round_id db) db in
  (forall qs, query_answer round_id db qs ->
              qs = load_participants round_id db)
  /\ (forall qs, query_answer round_id db1 qs ->
                 qs = load_participants round_id db1)
  /\ fst (close_round w round_id db1) = fst (close_round w round_id db)
  /\ (commit_fails w CommitIndices = false ->
      close_round w round_id db1 = close_round w round_id db)
  /\ (commit_fails w CommitIndices = true ->
      snd (close_round w round_id db1) = db1).
Proof.
  intros Hnd Hd Ho Hn db1.
  assert (Hd1 : distinct_arrivals round_id db1).
  { apply (distinct_arrivals_keys round_id db); [|exact Hd].
    destruct (load_participants_indexed round_id db Hnd) as [E _].
    unfold db1. rewrite E, map_map.
    apply map_ext. intros a. apply indexed_row_key. }
  split; [intros qs Hqs; now apply query_answer_unique|].
  split; [intros qs Hqs; now apply query_answer_unique|].
  exact (close_round_from_numbered w round_id db r Hnd Ho Hn).
Qed.

Lemma retry_after_numbering_witness :
  close_round (Sample.world "1a") 1
    (assign_round_indices (load_participants 1 (Sample.db_with 11))
       (Sample.db_with 11))
  = close_round (Sample.world "1a") 1 (Sample.db_with 11).
Proof.
  exact (proj1 (proj2 (proj2 (proj2
           (retry_after_numbering (Sample.world "1a") 1 (Sample.db_with 11)
              Sample.open_round
              ltac:(vm_compute; repeat (constructor; [simpl; lia|]); constructor)
              ltac:(vm_compute; repeat (constructor; [simpl; lia|]); constructor)
              ltac:(reflexivity) ltac:(vm_compute; lia)))))
           ltac:(reflexivity)).
Defined.

(** ** What an invocation keeps *)

Lemma ledger_extends_refl (round_id : Z) (db : Db) :
  ledger_extends round_id db db.
Proof.
  repeat split; try (exists []; now rewrite app_nil_r); auto.
Qed.

Lemma ledger_extends_trans (round_id : Z) (db1 db2 db3 : Db) :
  ledger_extends round_id db1 db2 -> ledger_extends round_id db2 db3 ->
  ledger_extends round_id db1 db3.
Proof.
  intros ((t1 & Ht1) & (r1 & Hr1) & Hp1 & Ho1)
         ((t2 & Ht2) & (r2 & Hr2) & Hp2 & Ho2).
  repeat split.
  - exists (t1 ++ t2)%list. now rewrite Ht2, Ht1, app_assoc.
  - exists (r1 ++ r2)%list. now rewrite Hr2, Hr1, app_assoc.
  - congruence.
  - intros r Hin Hid. apply Ho2; [now apply Ho1 | exact Hid].
Qed.

Lemma assign_from_keys (ps : list Participant.t) :
  forall start tbl,
    map participant_key (assign_from start ps tbl) = map participant_key tbl.
Proof.
  induction ps as [|p ps IH]; intros start tbl; cbn [assign_from];
    [reflexivity|].
  rewrite IH. unfold update_round_index. rewrite map_map. apply map_ext.
  intros q. destruct (Participant.id q =? Participant.id p); reflexivity.
Qed.

Lemma participant_key_ids (tbl tbl' : list Participant.t) :
  map participant_key tbl' = map participant_key tbl ->
  map Participant.id tbl' = map Participant.id tbl.
Proof.
  intros H.
  apply (f_equal (map (fun k : Z * Z * string * Z => fst (fst (fst k))))) in H.
  rewrite !map_map in H. exact H.
Qed.

Lemma mark_closed_others (round_id now : Z) (a : string) (db : Db)
  (r : Round.t) :
  In r (rounds db) -> Round.id r <> round_id ->
  In r (rounds (mark_closed round_id now a db)).
Proof.
  intros Hin Hid. cbn [mark_closed rounds]. apply in_map_iff. exists r.
  split; [|exact Hin].
  destruct (Z.eqb_spec (Round.id r) round_id); [contradiction | reflexivity].
Qed.

Lemma NoDup_fresh_id (ids : list Z) :
  NoDup ids -> NoDup (ids ++ [fresh_id ids]).
Proof.
  intros H. apply NoDup_app; [exact H | repeat constructor; intros [] |].
  intros x Hx [<-|[]]. apply fresh_id_above in Hx. lia.
Qed.

Lemma NoDup_fresh_two (ids : list Z) :
  NoDup ids -> NoDup (ids ++ [fresh_id ids; fresh_id ids + 1]).
Proof.
  intros H. apply NoDup_app; [exact H | |].
  - repeat constructor; cbn [In]; [lia | tauto].
  - intros x Hx Hin. apply fresh_id_above in Hx.
    cbn [In] in Hin. lia.
Qed.

(** One step of an attempt, from any program point. *)
Lemma attempt_step_extends (w : World) (round_id : Z) (p : pc) (db : Db) :
  ledger_extends round_id db (snd (attempt_step w round_id p db)).
Proof.
  destruct p; cbn [attempt_step]; unfold_session.
  - destruct (find_open_round round_id db); apply ledger_extends_refl.
  - destruct (List.length (load_participants round_id db) <? 10)%nat;
      apply ledger_extends_refl.
  - destruct (commit_fails w CommitIndices); cbn [advance snd];
      [apply ledger_extends_refl|].
    repeat split; cbn [assign_round_indices transactions rounds participants];
      try (exists []; now rewrite app_nil_r); auto.
    apply assign_from_keys.
  - destruct (get_latest_block_hash (http w)) as [h|];
      [destruct (str_falsy h)|]; apply ledger_extends_refl.
  - destruct (get_winner_index block_hash 10) as [[i|]|];
      try apply ledger_extends_refl.
    destruct (py_getitem ps i); [|apply ledger_extends_refl].
    destruct (commit_fails w CommitClosure); cbn [advance snd];
      [apply ledger_extends_refl|].
    repeat split.
    + exists []. now rewrite app_nil_r.
    + exists []. now rewrite app_nil_r, mark_closed_ids.
    + intros r Hin Hid. now apply mark_closed_others.
  - destruct (commit_fails w CommitSettlement); cbn [advance snd];
      [apply ledger_extends_refl|].
    repeat split; cbn [transactions rounds participants]; auto.
    + eexists. reflexivity.
    + exists []. now rewrite app_nil_r.
  - destruct (commit_fails w CommitNextRound); cbn [advance snd];
      [apply ledger_extends_refl|].
    repeat split; cbn [transactions rounds participants]; auto.
    + exists []. now rewrite app_nil_r.
    + eexists. rewrite map_app. reflexivity.
    + intros r Hin _. apply in_or_app. now left.
  - apply ledger_extends_refl.
Qed.

Lemma attempt_step_keys (w : World) (round_id : Z) (p : pc) (db : Db) :
  keys_unique db -> keys_unique (snd (attempt_step w round_id p db)).
Proof.
  intros (Hr & Hp & Ht). destruct p; cbn [attempt_step]; unfold_session.
  - destruct (find_open_round round_id db); now repeat split.
  - destruct (List.length (load_participants round_id db) <? 10)%nat;
      now repeat split.
  - destruct (commit_fails w CommitIndices); cbn [advance snd];
      [now repeat split|].
    repeat split; cbn [assign_round_indices transactions rounds participants];
      try assumption.
    now rewrite (participant_key_ids _ _ (assign_from_keys _ _ _)).
  - destruct (get_latest_block_hash (http w)) as [h|];
      [destruct (str_falsy h)|]; now repeat split.
  - destruct (get_winner_index block_hash 10) as [[i|]|];
      try now repeat split.
    destruct (py_getitem ps i); [|now repeat split].
    destruct (commit_fails w CommitClosure); cbn [advance snd];
      [now repeat split|].
    repeat split; try assumption. now rewrite mark_closed_ids.
  - destruct (commit_fails w CommitSettlement); cbn [advance snd];
      [now repeat split|].
    repeat split; cbn [transactions rounds participants]; try assumption.
    rewrite map_app. cbn [settlement_rows map Transaction.id].
    now apply NoDup_fresh_two.
  - destruct (commit_fails w CommitNextRound); cbn [advance snd];
      [now repeat split|].
    repeat split; cbn [transactions rounds participants]; try assumption.
    rewrite map_app. cbn [new_round_row map Round.id].
    now apply NoDup_fresh_id.
  - now repeat split.
Qed.

Lemma run_attempt_keeps (w : World) (round_id : Z) (fuel : nat) :
  forall p db,
    ledger_extends round_id db (snd (run_attempt fuel w round_id p db))
    /\ (keys_unique db ->
        keys_unique (snd (run_attempt fuel w round_id p db))).
Proof.
  induction fuel as [|fuel IH]; intros p db; cbn [run_attempt snd].
  - split; [apply ledger_extends_refl | trivial].
  - pose proof (attempt_step_extends w round_id p db) as He.
    pose proof (attempt_step_keys w round_id p db) as Hk.
    destruct (attempt_step w round_id p db) as [p' db']. cbn [snd] in He, Hk.
    destruct (IH p' db') as [He' Hk']. split.
    + eapply ledger_extends_trans; eassumption.
    + intros H. apply Hk', Hk, H.
Qed.

Lemma race_keeps (w1 w2 : World) (round_id : Z) (schedule : list who) :
  forall s,
    ledger_extends round_id (store s)
      (store (race w1 w2 round_id schedule s))
    /\ (keys_unique (store s) ->
        keys_unique (store (race w1 w2 round_id schedule s))).
Proof.
  unfold race.
  induction schedule as [|t schedule IH]; intros s; cbn [fold_left].
  - split; [apply ledger_extends_refl | trivial].
  - destruct (IH (race_step w1 w2 round_id s t)) as [He Hk].
    assert (Hstep : ledger_extends round_id (store s)
                      (store (race_step w1 w2 round_id s t))
                    /\ (keys_unique (store s) ->
                        keys_unique (store (race_step w1 w2 round_id s t)))).
    { destruct t; cbn [race_step].
      - pose proof (attempt_step_extends w1 round_id (first_pc s) (store s)).
        pose proof (attempt_step_keys w1 round_id (first_pc s) (store s)).
        destruct (attempt_step w1 round_id (first_pc s) (store s)).
        cbn [store snd] in *. now split.
      - pose proof (attempt_step_extends w2 round_id (second_pc s) (store s)).
        pose proof (attempt_step_keys w2 round_id (second_pc s) (store s)).
        destruct (attempt_step w2 round_id (second_pc s) (store s)).
        cbn [store snd] in *. now split. }
    destruct Hstep as [He0 Hk0]. split.
    + eapply ledger_extends_trans; eassumption.
    + intros H. apply Hk, Hk0, H.
Qed.

(** X8.  Whatever the world and however it ends, [close_round] only adds
    to the ledger: the transactions there were come first and unchanged in
    the transactions it leaves, the round keys there were come first in
    the same order, every participant keeps its id, round, address and
    time of arrival in the same table order, and every round other than
    the one being closed is still there as it was. *)
Theorem close_round_only_adds (w : World) (round_id : Z) (db : Db) :
  ledger_extends round_id db (snd (close_round w round_id db)).
Proof.
  pose proof (run_attempt_keeps w round_id 7 AtOpenCheck db) as [H _].
  now rewrite run_attempt_close_round in H.
Qed.

(** X9.  [close_round] keeps the primary keys of the three tables
    distinct, on every path: the rows it inserts take keys above all the
    keys in use. *)
Theorem close_round_keeps_keys_unique (w : World) (round_id : Z) (db : Db) :
  keys_unique db -> keys_unique (snd (close_round w round_id db)).
Proof.
  pose proof (run_attempt_keeps w round_id 7 AtOpenCheck db) as [_ H].
  now rewrite run_attempt_close_round in H.
Qed.

Lemma close_round_keeps_keys_unique_witness :
  keys_unique (snd (close_round (Sample.world "1a") 1 (Sample.db_with 10))).
Proof.
  apply close_round_keeps_keys_unique.
  vm_compute. repeat split;
    repeat (constructor; [simpl; lia|]); constructor.
Defined.

(** X10.  Two attempts on one round stepped in any order, from any
    program points, only add to the ledger and keep the primary keys
    distinct: no interleaving removes or rewrites a transaction, drops a
    round, changes a registration or duplicates a key. *)
Theorem race_only_adds (w1 w2 : World) (round_id : Z) (schedule : list who)
  (s : Race) :
  ledger_extends round_id (store s) (store (race w1 w2 round_id schedule s))
  /\ (keys_unique (store s) ->
      keys_unique (store (race w1 w2 round_id schedule s))).
Proof. apply race_keeps. Qed.

Lemma race_only_adds_witness :
  keys_unique (store Sample.overlap_end).
Proof.
  apply (proj2 (race_only_adds (Sample.world "1a") (Sample.world "1b") 1
                  Sample.overlap (race_start (Sample.db_with 10)))).
  vm_compute. repeat split;
    repeat (constructor; [simpl; lia|]); constructor.
Defined.

(** ** The numbering under overlapping attempts *)

Lemma assign_from_ids (ps ps' : list Participant.t) :
  map Participant.id ps = map Participant.id ps' ->
  forall start tbl, assign_from start ps tbl = assign_from start ps' tbl.
Proof.
  revert ps'. induction ps as [|p ps IH]; intros [|p' ps'] H start tbl;
    try discriminate; [reflexivity|].
  cbn [map] in H. injection H as Hp Hps. cbn [assign_from].
  rewrite Hp. now apply IH.
Qed.

Section Numbering.
Variables (round_id : Z) (db0 : Db).
Hypothesis keys : NoDup (map Participant.id (participants db0)).

Let arrivals := load_participants round_id db0.
Let numbered := participants (assign_round_indices arrivals db0).

Lemma numbered_arrivals (db : Db) :
  participants db = participants db0 \/ participants db = numbered ->
  map Participant.id (load_participants round_id db)
  = map Participant.id arrivals.
Proof.
  intros [H|H].
  - now rewrite (load_participants_ext round_id db db0 H).
  - rewrite (load_participants_ext round_id db
               (assign_round_indices arrivals db0) H).
    destruct (load_participants_indexed round_id db0 keys) as [_ E].
    fold arrivals in E. rewrite E, map_map. apply map_ext. intros a. apply indexed_row_keeps.
Qed.

Lemma numbered_again (ps : list Participant.t) (tbl : list Participant.t) :
  map Participant.id ps = map Participant.id arrivals ->
  tbl = participants db0 \/ tbl = numbered ->
  assign_from 1 (firstn 10 ps) tbl = numbered.
Proof.
  intros Hps Htbl.
  assert (H10 : map Participant.id (firstn 10 ps)
                = map Participant.id (firstn 10 arrivals))
    by now rewrite <- !firstn_map, Hps.
  rewrite (assign_from_ids _ _ H10).
  destruct Htbl as [-> | ->]; [reflexivity|].
  pose proof (assign_round_indices_idem round_id db0 keys) as Hidem.
  cbv zeta in Hidem. fold arrivals in Hidem.
  apply (f_equal participants) in Hidem.
  transitivity
    (assign_from 1
       (firstn 10 (load_participants round_id
                     (assign_round_indices arrivals db0))) numbered);
    [|exact Hidem].
  apply assign_from_ids. rewrite <- !firstn_map. f_equal. symmetry.
  apply numbered_arrivals. now right.
Qed.

Lemma attempt_step_numbering (w : World) (p : pc) (db : Db) :
  participants db = participants db0 \/ participants db = numbered ->
  (forall ps, p = AtIndex ps ->
              map Participant.id ps = map Participant.id arrivals) ->
  (participants (snd (attempt_step w round_id p db)) = participants db0
   \/ participants (snd (attempt_step w round_id p db)) = numbered)
  /\ (forall ps, fst (attempt_step w round_id p db) = AtIndex ps ->
                 map Participant.id ps = map Participant.id arrivals).
Proof.
  intros Hdb Hsnap. destruct p; cbn [attempt_step]; unfold_session.
  - destruct (find_open_round round_id db); cbn [advance fst snd];
      (split; [exact Hdb | discriminate]).
  - destruct (List.length (load_participants round_id db) <? 10)%nat;
      cbn [advance fst snd]; (split; [exact Hdb|]); [discriminate|].
    intros ps' [= <-]. now apply numbered_arrivals.
  - destruct (commit_fails w CommitIndices); cbn [advance fst snd];
      [split; [exact Hdb | discriminate]|].
    split; [|discriminate]. right.
    cbn [assign_round_indices participants].
    apply numbered_again; [now apply Hsnap | exact Hdb].
  - destruct (get_latest_block_hash (http w)) as [h|];
      [destruct (str_falsy h)|]; cbn [advance fst snd];
      (split; [exact Hdb | discriminate]).
  - destruct (get_winner_index block_hash 10) as [[i|]|];
      cbn [advance fst snd]; try (split; [exact Hdb | discriminate]).
    destruct (py_getitem ps i); cbn [advance fst snd];
      [|split; [exact Hdb | discriminate]].
    destruct (commit_fails w CommitClosure); cbn [advance fst snd];
      (split; [exact Hdb | discriminate]).
  - destruct (commit_fails w CommitSettlement); cbn [advance fst snd];
      (split; [exact Hdb | discriminate]).
  - destruct (commit_fails w CommitNextRound); cbn [advance fst snd];
      (split; [exact Hdb | discriminate]).
  - split; [exact Hdb | discriminate].
Qed.

Lemma race_numbering (w1 w2 : World) (schedule : list who) :
  forall s,
    participants (store s) = participants db0
    \/ participants (store s) = numbered ->
    (forall ps, first_pc s = AtIndex ps ->
                map Participant.id ps = map Participant.id arrivals) ->
    (forall ps, second_pc s = AtIndex ps ->
                map Participant.id ps = map Participant.id arrivals) ->
    participants (store (race w1 w2 round_id schedule s)) = participants db0
    \/ participants (store (race w1 w2 round_id schedule s)) = numbered.
Proof.
  unfold race.
  induction schedule as [|t schedule IH]; intros s Hdb H1 H2; cbn [fold_left];
    [exact Hdb|].
  apply IH; destruct t; cbn [race_step].
  - destruct (attempt_step_numbering w1 _ _ Hdb H1) as [Hd _].
    now destruct (attempt_step w1 round_id (first_pc s) (store s)).
  - destruct (attempt_step_numbering w2 _ _ Hdb H2) as [Hd _].
    now destruct (attempt_step w2 round_id (second_pc s) (store s)).
  - destruct (attempt_step_numbering w1 _ _ Hdb H1) as [_ Hp].
    now destruct (attempt_step w1 round_id (first_pc s) (store s)).
  - destruct (attempt_step w2 round_id (second_pc s) (store s)). exact H1.
  - destruct (attempt_step w1 round_id (first_pc s) (store s)). exact H2.
  - destruct (attempt_step_numbering w2 _ _ Hdb H2) as [_ Hp].
    now destruct (attempt_step w2 round_id (second_pc s) (store s)).
Qed.

End Numbering.

(** X11.  Overlapping attempts never number the participants differently
    when no two participants of the round arrived at the same time (and
    primary keys are distinct): the query of line 104 then has one answer
    on the untouched table and one on the numbered table, whatever order
    the engine gives to equal keys, and after any schedule of two attempts
    on one round, in any two worlds, the participants table is either
    untouched or exactly the table one attempt alone writes, numbered 1 to
    10 in order of arrival. *)
Theorem numbering_is_schedule_independent (w1 w2 : World) (round_id : Z)
  (db : Db) (schedule : list who) :
  NoDup (map Participant.id (participants db)) ->
  distinct_arrivals round_id db ->
  let numbered := assign_from 1 (firstn 10 (load_participants round_id db))
                    (participants db) in
  (forall db' qs,
     participants db' = participants db \/ participants db' = numbered ->
     query_answer round_id db' qs -> qs = load_participants round_id db')
  /\ (participants (store (race w1 w2 round_id schedule (race_start db)))
      = participants db
      \/ participants (store (race w1 w2 round_id schedule (race_start db)))
         = numbered).
Proof.
  intros Hnd Hd numbered. split.
  - intros db' qs Hdb' Hqs. apply query_answer_unique; [|exact Hqs].
    apply (distinct_arrivals_keys round_id db); [|exact Hd].
    destruct Hdb' as [-> | ->]; [reflexivity | apply assign_from_keys].
  - apply (race_numbering round_id db Hnd w1 w2 schedule (race_start db));
      cbn [race_start store first_pc second_pc]; [now left | discriminate ..].
Qed.

Lemma numbering_is_schedule_independent_witness :
  participants (store Sample.overlap_end) = participants (Sample.db_with 10)
  \/ participants (store Sample.overlap_end)
     = assign_from 1 (firstn 10 (load_participants 1 (Sample.db_with 10)))
         (participants (Sample.db_with 10)).
Proof.
  exact (proj2
           (numbering_is_schedule_independent (Sample.world "1a")
              (Sample.world "1b") 1 (Sample.db_with 10) Sample.overlap
              ltac:(vm_compute; repeat (constructor; [simpl; lia|]); constructor)
              ltac:(vm_compute; repeat (constructor; [simpl; lia|]); constructor))).
Defined.

(** ** Settlement and successor on their own *)

Lemma closure_recorded_mark (round_id now : Z) (a : string) (db dbx : Db)
  (r : Round.t) :
  find_open_round round_id db = Some r ->
  rounds dbx = rounds db ->
  closure_recorded round_id a (mark_closed round_id now a dbx).
Proof.
  intros Ho Hr. destruct (find_open_round_Some _ _ _ Ho) as (Hin & Hid & _).
  split.
  - rewrite mark_closed_ids, Hr, <- Hid. now apply in_map.
  - intros r' Hr' Hid'.
    destruct (mark_closed_rows _ _ _ _ _ Hr' Hid') as (? & _ & ?). now split.
Qed.

Lemma closure_recorded_more (round_id : Z) (a : string) (db db' : Db)
  (extra : list Round.t) :
  closure_recorded round_id a db ->
  rounds db' = (rounds db ++ extra)%list ->
  (forall r, In r extra -> Round.id r <> round_id) ->
  closure_recorded round_id a db'.
Proof.
  intros [Hin Hall] Hr Hx. split.
  - rewrite Hr, map_app. apply in_or_app. now left.
  - intros r Hr' Hid. rewrite Hr in Hr'. apply in_app_or in Hr' as [Hr'|Hr'].
    + now apply Hall.
    + exfalso. exact (Hx r Hr' Hid).
Qed.

(** X12.  [close_round] writes transactions only together with a closure:
    in the database it leaves, on every path, either the transactions
    table is what it was, or it is the earlier table followed by the payout
    and fee rows for an address [a], and then every row of the round is
    closed with winner [a] and the round is not open. *)
Theorem settlement_only_with_closure (w : World) (round_id : Z) (db : Db) :
  transactions (snd (close_round w round_id db)) = transactions db
  \/ exists a,
       transactions (snd (close_round w round_id db))
       = (transactions db ++ settlement_rows w a db)%list
       /\ closure_recorded round_id a (snd (close_round w round_id db))
       /\ find_open_round round_id (snd (close_round w round_id db)) = None.
Proof.
  unfold_session.
  destruct (find_open_round round_id db) as [r|] eqn:Ho; [|now left].
  cbn beta iota.
  destruct (List.length (load_participants round_id db) <? 10)%nat;
    [now left|].
  destruct (commit_fails w CommitIndices); [now left|].
  destruct (get_latest_block_hash (http w)) as [h|]; [|now left].
  destruct (str_falsy h); [now left|].
  destruct (get_winner_index h 10) as [[i|]|]; try now left.
  destruct (py_getitem _ i) as [p|]; [|now left].
  destruct (commit_fails w CommitClosure); [now left|].
  destruct (commit_fails w CommitSettlement); [now left|].
  set (a := Participant.btc_address p).
  set (db1 := assign_round_indices (load_participants round_id db) db).
  assert (Hrec : closure_recorded round_id a
                   (mark_closed round_id (utcnow w ClockClosedAt) a db1))
    by now apply closure_recorded_mark with (db := db) (r := r).
  right. exists a.
  destruct (commit_fails w CommitNextRound); cbn [snd transactions].
  - split; [reflexivity|].
    assert (Hrec' : closure_recorded round_id a
              (mkDb (rounds (mark_closed round_id (utcnow w ClockClosedAt) a db1))
                 (participants (mark_closed round_id (utcnow w ClockClosedAt) a db1))
                 (transactions (mark_closed round_id (utcnow w ClockClosedAt) a db1)
                  ++ settlement_rows w a
                       (mark_closed round_id (utcnow w ClockClosedAt) a db1)))).
    { eapply closure_recorded_more with (extra := []);
        [exact Hrec | cbn [rounds]; now rewrite app_nil_r | intros ? []]. }
    split; [exact Hrec' | now apply closure_recorded_not_open with (a := a)].
  - split; [reflexivity|].
    match goal with
    | |- closure_recorded _ _ ?d /\ _ =>
        assert (Hrec' : closure_recorded round_id a d)
    end.
    { eapply closure_recorded_more;
        [exact Hrec | cbn [rounds]; reflexivity|].
      intros r' [<-|[]]. apply new_round_row_fresh. cbn [rounds].
      exact (proj1 Hrec). }
    split; [exact Hrec' | now apply closure_recorded_not_open with (a := a)].
Qed.

Lemma fold_max_app (l l' : list Z) :
  fold_right Z.max 0 (l ++ l')
  = Z.max (fold_right Z.max 0 l) (fold_right Z.max 0 l').
Proof.
  induction l as [|x l IH]; cbn [app fold_right].
  - assert (0 <= fold_right Z.max 0 l').
    { induction l' as [|y l' IH']; cbn [fold_right]; lia. }
    lia.
  - rewrite IH. lia.
Qed.

Lemma fresh_id_positive (ids : list Z) : 1 <= fresh_id ids.
Proof.
  unfold fresh_id. induction ids as [|x ids IH]; cbn [fold_right]; lia.
Qed.

Lemma fresh_id_after_one (ids : list Z) :
  fresh_id (ids ++ [fresh_id ids]) = fresh_id ids + 1.
Proof.
  pose proof (fresh_id_positive ids) as H. unfold fresh_id in *.
  rewrite fold_max_app. cbn [fold_right].
  revert H. generalize (fold_right Z.max 0 ids). intros m H. lia.
Qed.

Lemma fresh_id_after_two (ids : list Z) :
  fresh_id (ids ++ [fresh_id ids; fresh_id ids + 1]) = fresh_id ids + 2.
Proof.
  pose proof (fresh_id_positive ids) as H. unfold fresh_id in *.
  rewrite fold_max_app. cbn [fold_right].
  revert H. generalize (fold_right Z.max 0 ids). intros m H. lia.
Qed.

(** X13.  [record_payout_transactions] does not look for a settlement
    already recorded: called twice for the same winner, with both commits
    succeeding, it leaves two payouts and two fees, four rows with the four
    next keys in a row, each pair with the full prize and fee amounts. *)
Theorem settlement_recorded_twice (w1 w2 : World) (a : string) (db : Db) :
  commit_fails w1 CommitSettlement = false ->
  commit_fails w2 CommitSettlement = false ->
  exists db1 db2,
    record_payout_transactions w1 a db = (Next tt, db1)
    /\ record_payout_transactions w2 a db1 = (Next tt, db2)
    /\ transactions db2
       = (transactions db ++ settlement_rows w1 a db
          ++ settlement_rows w2 a db1)%list
    /\ map Transaction.id (settlement_rows w1 a db ++ settlement_rows w2 a db1)
       = (let k := fresh_id (map Transaction.id (transactions db)) in
          [k; k + 1; k + 2; k + 3])
    /\ map Transaction.amount
         (settlement_rows w1 a db ++ settlement_rows w2 a db1)
       = [prize_amount; admin_fee; prize_amount; admin_fee]
    /\ map Transaction.address
         (settlement_rows w1 a db ++ settlement_rows w2 a db1)
       = [a; ADMIN_FEE_ADDRESS; a; ADMIN_FEE_ADDRESS]
    /\ rounds db2 = rounds db /\ participants db2 = participants db.
Proof.
  intros H1 H2. unfold record_payout_transactions, commit_writes.
  rewrite H1. eexists. eexists. split; [reflexivity|].
  rewrite H2. split; [reflexivity|].
  cbn [transactions rounds participants].
  split; [now rewrite <- app_assoc|].
  repeat split.
  cbn [settlement_rows map app Transaction.id transactions].
  rewrite map_app. cbn [map Transaction.id].
  rewrite fresh_id_after_two. cbv zeta.
  now rewrite <- Z.add_assoc.
Qed.

Lemma settlement_recorded_twice_witness :
  exists db1 db2,
    record_payout_transactions (Sample.world "1a") "d" (Sample.db_with 10)
    = (Next tt, db1)
    /\ record_payout_transactions (Sample.world "1a") "d" db1 = (Next tt, db2)
    /\ List.length (transactions db2) = 4%nat.
Proof.
  destruct (settlement_recorded_twice (Sample.world "1a") (Sample.world "1a")
              "d" (Sample.db_with 10) ltac:(reflexivity) ltac:(reflexivity))
    as (db1 & db2 & E1 & E2 & E3 & _).
  exists db1, db2. split; [exact E1|]. split; [exact E2|].
  rewrite E3. reflexivity.
Defined.

(** X14.  [create_next_round] does not look for a round that is already
    open: called twice, with both commits succeeding, it returns two
    consecutive new ids and leaves two open rounds with the fixed deposit
    address, each found as the open round of its id. *)
Theorem two_successors_both_open (w1 w2 : World) (db : Db) :
  commit_fails w1 CommitNextRound = false ->
  commit_fails w2 CommitNextRound = false ->
  let n := fresh_id (map Round.id (rounds db)) in
  let row1 := Round.mk n FIXED_DEPOSIT_ADDRESS "open"
                (Some (utcnow w1 ClockOpenedAt)) None None in
  let row2 := Round.mk (n + 1) FIXED_DEPOSIT_ADDRESS "open"
                (Some (utcnow w2 ClockOpenedAt)) None None in
  exists db1 db2,
    create_next_round w1 db = (Next n, db1)
    /\ create_next_round w2 db1 = (Next (n + 1), db2)
    /\ rounds db2 = (rounds db ++ [row1; row2])%list
    /\ find_open_round n db2 = Some row1
    /\ find_open_round (n + 1) db2 = Some row2
    /\ transactions db2 = transactions db
    /\ participants db2 = participants db.
Proof.
  intros H1 H2 n row1 row2.
  unfold create_next_round, commit_writes, bind, query, ret.
  rewrite H1. eexists. eexists. split; [reflexivity|].
  rewrite H2. cbn [rounds participants transactions].
  assert (Hid : Round.id (new_round_row w2
                  (mkDb (rounds db ++ [new_round_row w1 db])
                     (participants db) (transactions db))) = n + 1).
  { cbn [new_round_row Round.id rounds]. rewrite map_app.
    cbn [map new_round_row Round.id]. apply fresh_id_after_one. }
  assert (Hrow2 : new_round_row w2
                    (mkDb (rounds db ++ [new_round_row w1 db])
                       (participants db) (transactions db)) = row2).
  { unfold row2. rewrite <- Hid. reflexivity. }
  rewrite Hrow2. cbn [Round.id row2].
  split; [reflexivity|].
  split; [now rewrite <- app_assoc|].
  assert (Hskip : forall x, In x (rounds db) ->
                    Round.id x <> n /\ Round.id x <> n + 1).
  { intros x Hx. apply (in_map Round.id) in Hx. apply fresh_id_above in Hx.
    fold n in Hx. lia. }
  repeat split; unfold find_open_round; cbn [rounds];
    rewrite <- app_assoc, find_app_skip.
  - cbn [app find new_round_row Round.id Round.status]. fold n.
    now rewrite Z.eqb_refl.
  - intros x Hx. destruct (Hskip x Hx).
    destruct (Z.eqb_spec (Round.id x) n); [contradiction | reflexivity].
  - cbn [app find new_round_row Round.id Round.status]. fold n.
    destruct (Z.eqb_spec n (n + 1)); [lia|]. cbn [andb row2 Round.id Round.status].
    now rewrite Z.eqb_refl.
  - intros x Hx. destruct (Hskip x Hx).
    destruct (Z.eqb_spec (Round.id x) (n + 1)); [contradiction | reflexivity].
Qed.

Lemma two_successors_both_open_witness :
  exists db1 db2,
    create_next_round (Sample.world "1a") (Sample.db_with 10) = (Next 2, db1)
    /\ create_next_round (Sample.world "1a") db1 = (Next 3, db2)
    /\ List.length (rounds db2) = 3%nat.
Proof.
  destruct (two_successors_both_open (Sample.world "1a") (Sample.world "1a")
              (Sample.db_with 10) ltac:(reflexivity) ltac:(reflexivity))
    as (db1 & db2 & E1 & E2 & E3 & _).
  exists db1, db2. split; [exact E1|]. split; [exact E2|].
  rewrite E3. reflexivity.
Defined.

(** ** The beacon value and the participants query *)

Lemma rstrip_idem (s : string) : PyStr.rstrip (PyStr.rstrip s) = PyStr.rstrip s.
Proof.
  induction s as [|c s IH]; [reflexivity|].
  cbn [PyStr.rstrip].
  destruct (str_falsy (PyStr.rstrip s) && PyStr.isspace c) eqn:E;
    [reflexivity|].
  cbn [PyStr.rstrip]. now rewrite IH, E.
Qed.

Lemma lstrip_head (s : string) :
  PyStr.lstrip s = EmptyString
  \/ exists c t, PyStr.lstrip s = String c t /\ PyStr.isspace c = false.
Proof.
  induction s as [|c s IH]; [now left|].
  cbn [PyStr.lstrip]. destruct (PyStr.isspace c) eqn:E; [exact IH|].
  right. now exists c, s.
Qed.

Lemma lstrip_strip (s : string) : PyStr.lstrip (PyStr.strip s) = PyStr.strip s.
Proof.
  unfold PyStr.strip.
  destruct (lstrip_head s) as [-> | (c & t & -> & Hc)]; [reflexivity|].
  cbn [PyStr.rstrip]. rewrite Hc, andb_false_r.
  cbn [PyStr.lstrip]. now rewrite Hc.
Qed.

(** X15.  A value returned by [get_latest_block_hash] comes from an answer
    with status 200 and has no white space at either end, so fetching it
    again as a body gives the same value: surrounding white space or a
    final newline in the body never reaches the draw. *)
Theorem block_hash_is_stripped (resp : http_result) (h : string) :
  get_latest_block_hash resp = Some h ->
  (exists text, resp = HttpResponse 200 text)
  /\ PyStr.lstrip h = h
  /\ PyStr.rstrip h = h
  /\ get_latest_block_hash (HttpResponse 200 h) = Some h.
Proof.
  destruct resp as [c text|]; cbn [get_latest_block_hash]; [|discriminate].
  destruct (Z.eqb_spec c 200) as [->|]; [|discriminate].
  intros [= <-].
  assert (Hl : PyStr.lstrip (PyStr.strip text) = PyStr.strip text)
    by apply lstrip_strip.
  assert (Hr : PyStr.rstrip (PyStr.strip text) = PyStr.strip text)
    by apply rstrip_idem.
  repeat split; try assumption.
  - now exists text.
  - cbn [Z.eqb Pos.eqb]. f_equal. unfold PyStr.strip at 1. now rewrite Hl.
Qed.

Lemma block_hash_is_stripped_witness :
  get_latest_block_hash (HttpResponse 200 "1a") = Some "1a".
Proof.
  exact (proj2 (proj2 (proj2
           (block_hash_is_stripped
              (HttpResponse 200 (String (ascii_of_nat 32)
                                   (String (ascii_of_nat 9)
                                      (String (ascii_of_nat 49)
                                         (String (ascii_of_nat 97)
                                            (String (ascii_of_nat 10)
                                               EmptyString))))))
              "1a" ltac:(reflexivity))))).
Defined.

(** X16.  The participants query returns exactly the registrations of the
    round, each once for each of its rows, in non-decreasing order of
    [created_at]: a row is returned if and only if it is in the table with
    that [round_id]. *)
Theorem load_participants_sorted (round_id : Z) (db : Db) :
  StronglySorted (key_le Participant.created_at)
    (load_participants round_id db)
  /\ Permutation (load_participants round_id db)
       (filter (fun p => Participant.round_id p =? round_id)
          (participants db))
  /\ (forall p, In p (load_participants round_id db)
                <-> In p (participants db)
                    /\ Participant.round_id p = round_id)
  /\ List.length (load_participants round_id db)
     = participant_count round_id db.
Proof.
  split; [apply order_by_sorted|].
  split; [apply order_by_perm|].
  split; [|apply load_participants_length].
  intros p. split; [apply load_participants_In|].
  intros [Hin Hr]. unfold load_participants.
  eapply Permutation_in; [symmetry; apply order_by_perm|].
  apply filter_In. split; [exact Hin | lia].
Qed.
